(** * GitHubWatcher (src/App.js): the polling cycle, the tracked-account
    list and the effect that schedules the cycles.

    The component keeps six pieces of React state.  [fetchData] is one
    polling cycle over the GitHub REST API, [handleAddProfiles] is the
    submit handler of the account form, and the [useEffect] body starts
    a cycle and a 100000 ms interval whenever [profiles] or [token]
    changes.

    Conventions of the embedding:
    - JS strings are [string]; characters are code units below 256.
    - JSON numbers that the API documents as integers, and the epoch
      milliseconds held by a [Date], are [Z].
    - The plain object used for [errors] is a [gmap string string]
      (own properties, by key); an assignment under [__proto__] stores
      nothing in it.
    - A promise that rejects and a [throw] are the completion [Throw].
    - The wording of the TypeErrors that the engine raises is a
      parameter, the class [Engine]. *)

From Stdlib Require Import ZArith String Ascii List Lia.
From stdpp Require Import gmap strings list fin_maps.

(** ** Documents of the remote API

    Only the fields that the component reads are kept. *)

(** [resources.core] of GET /rate_limit. *)
Module Core.
Record t := { limit : Z; remaining : Z; reset : Z }.
End Core.

(** [resources] of GET /rate_limit; [core] is [None] when the object
    has no [core]. *)
Module Resources.
Record t := { core : option Core.t }.
End Resources.

(** GET /users/{profile}. *)
Module User.
Record t := { public_repos : Z }.
End User.

(** An element of GET /users/{profile}/repos. [homepage] and [language]
    are nullable; [created_at] is the instant the date string denotes. *)
Module Repo.
Record t := {
  name : string;
  html_url : string;
  homepage : option string;
  language : option string;
  created_at : Z
}.
End Repo.

(** An element of GET /repos/{profile}/{repo}/commits: [message] is
    [commit.message] and [date] the instant of [commit.author.date]. *)
Module Commit.
Record t := { message : string; date : Z; html_url : string }.
End Commit.

(** What [response.json()] yields: the documented document, or some
    other object, such as the [{message: ...}] that comes with a
    non-success status.  Reading [.length] or [.resources] of the latter
    gives [undefined]. The document of GET /rate_limit is taken by its
    [resources] member, the others as a whole. Bodies are objects or
    arrays: [null] and primitive bodies, which no documented answer of
    the service has, are left out. *)
Inductive Json (A : Type) : Type :=
  | Doc (a : A)
  | ErrorDoc.
Arguments Doc {A} a.
Arguments ErrorDoc {A}.

(** ** Completions *)

Inductive Completion (A : Type) : Type :=
  | Normal (a : A)
  | Throw (message : string).
Arguments Normal {A} a.
Arguments Throw {A} message.

(** A resolved [fetch]: the [ok] flag and the outcome of [json()]. *)
Record Response (A : Type) : Type := {
  ok : bool;
  json : Completion A
}.
Arguments ok {A} r.
Arguments json {A} r.

(** The requests the component issues. The commits request carries the
    constant [since] parameter, 27 September 2024 at local midnight. *)
Inductive Request : Type :=
  | GetRateLimit
  | GetUser (profile : string)
  | GetRepos (profile : string)
  | GetCommits (profile repo : string).

(** The remote service as one cycle sees it (under the [headers] the
    cycle was created with): what each [fetch] settles to. *)
Record Remote := {
  fetch_rate_limit : Completion (Response (Json Resources.t));
  fetch_user : string -> Completion (Response User.t);
  fetch_repos : string -> Completion (Response (Json (list Repo.t)));
  fetch_commits : string -> string -> Completion (Response (Json (list Commit.t)))
}.

(** ** Component state *)

(** An element of [activity.commits]. *)
Module CommitView.
Record t := { message : string; date : Z; commitUrl : string }.
End CommitView.

(** The object pushed on [newActivities]. [lastUpdated] is [None] for an
    invalid [Date]. *)
Module Activity.
Record t := {
  type : string;
  profile : string;
  repo : string;
  repoUrl : string;
  productionUrl : option string;
  techStack : option string;
  commits : list CommitView.t;
  repoCount : Z;
  lastUpdated : option Z;
  creationDate : Z
}.
End Activity.

(** The six pieces of state (lines 6-11); [rateLimit] is [None] while it
    is [null] or [undefined]. *)
Record State := {
  profiles : list string;
  newProfiles : string;
  activities : list Activity.t;
  errors : gmap string string;
  token : string;
  rateLimit : option Core.t
}.

(** The setters of [useState]; [setProfiles] takes the updater function
    of line 95, and [setRateLimit] whatever [resources.core] is, [None]
    being [undefined]. *)
Definition setProfiles (f : list string -> list string) (st : State) : State :=
  {| profiles := f (profiles st); newProfiles := newProfiles st;
     activities := activities st; errors := errors st;
     token := token st; rateLimit := rateLimit st |}.

Definition setNewProfiles (s : string) (st : State) : State :=
  {| profiles := profiles st; newProfiles := s;
     activities := activities st; errors := errors st;
     token := token st; rateLimit := rateLimit st |}.

Definition setActivities (a : list Activity.t) (st : State) : State :=
  {| profiles := profiles st; newProfiles := newProfiles st;
     activities := a; errors := errors st;
     token := token st; rateLimit := rateLimit st |}.

Definition setErrors (e : gmap string string) (st : State) : State :=
  {| profiles := profiles st; newProfiles := newProfiles st;
     activities := activities st; errors := e;
     token := token st; rateLimit := rateLimit st |}.

Definition setRateLimit (c : option Core.t) (st : State) : State :=
  {| profiles := profiles st; newProfiles := newProfiles st;
     activities := activities st; errors := errors st;
     token := token st; rateLimit := c |}.

(** Line 120, the credential field. *)
Definition setToken (tok : string) (st : State) : State :=
  {| profiles := profiles st; newProfiles := newProfiles st;
     activities := activities st; errors := errors st;
     token := tok; rateLimit := rateLimit st |}.

(** Line 13: the [Authorization] header, absent for the empty token. *)
Definition headers (tok : string) : option string :=
  if decide (tok = "") then None else Some ("token " +:+ tok).

(** ** String.prototype.split(',') and trim *)

Definition comma : ascii := ","%char.

(** [s.split(',')]: never empty; [""] yields [[""]]. *)
Fixpoint split_comma (s : string) : list string :=
  match s with
  | EmptyString => [""]
  | String c s' =>
      if decide (c = comma) then "" :: split_comma s'
      else match split_comma s' with
           | h :: t => String c h :: t
           | [] => [String c ""]
           end
  end.

(** White space and line terminators below 256: TAB, LF, VT, FF, CR,
    SP and NBSP. *)
Definition is_white (c : ascii) : bool :=
  let n := nat_of_ascii c in
  (((9 <=? n) && (n <=? 13)) || (n =? 32) || (n =? 160))%nat.

Fixpoint trimStart (s : string) : string :=
  match s with
  | EmptyString => ""
  | String c s' => if is_white c then trimStart s' else s
  end.

Fixpoint trimEnd (s : string) : string :=
  match s with
  | EmptyString => ""
  | String c s' =>
      match trimEnd s' with
      | EmptyString => if is_white c then "" else String c ""
      | t => String c t
      end
  end.

Definition trim (s : string) : string := trimEnd (trimStart s).

(** ** handleAddProfiles (lines 91-98) *)

(** [newProfiles.split(',').map(p => p.trim())] *)
Definition submitted (s : string) : list string := map trim (split_comma s).

(** The filter [p => p && !profiles.includes(p)]. *)
Definition fresh (known : list string) (p : string) : bool :=
  bool_decide (p ≠ "") && bool_decide (p ∉ known).

Definition handleAddProfiles (st : State) : State :=
  let profileList := List.filter (fresh (profiles st)) (submitted (newProfiles st)) in
  if (0 <? length profileList)%nat then
    setNewProfiles "" (setProfiles (fun prev => prev ++ profileList) st)
  else st.

(** ** The cycle: fetchData (lines 16-82)

    The two local accumulators [newActivities] and [newErrors] are
    mutated in place, so what was pushed before an exception stays
    pushed.  [requests] is the list of requests issued so far, oldest
    first; it is not in the source and only observes the calls. *)

Record Cycle := {
  newActivities : list Activity.t;
  newErrors : gmap string string;
  requests : list Request
}.

Definition Async (A : Type) : Type := Cycle -> Cycle * Completion A.

Definition ret {A} (a : A) : Async A := fun c => (c, Normal a).

Definition throw {A} (message : string) : Async A := fun c => (c, Throw message).

Definition bind {A B} (m : Async A) (k : A -> Async B) : Async B :=
  fun c => match m c with
           | (c', Normal a) => k a c'
           | (c', Throw e) => (c', Throw e)
           end.

Notation "x <- m ;; k" := (bind m (fun x => k))
  (at level 100, m at next level, right associativity).
Notation "m ;;; k" := (bind m (fun _ => k))
  (at level 100, right associativity).

(** [await fetch(url, { headers })]: the request goes out, then the
    promise settles. *)
Definition fetch {A} (r : Request) (settled : Completion (Response A)) : Async (Response A) :=
  fun c => ({| newActivities := newActivities c; newErrors := newErrors c;
               requests := requests c ++ [r] |}, settled).

(** [await response.json()] *)
Definition await_json {A} (r : Response A) : Async A := fun c => (c, json r).

(** [newActivities.push(a)] *)
Definition push (a : Activity.t) : Async unit :=
  fun c => ({| newActivities := newActivities c ++ [a]; newErrors := newErrors c;
               requests := requests c |}, Normal tt).

(** [object[key] = message] on a plain object, for a string [message]:
    under the key [__proto__] the assignment goes to the setter of
    [Object.prototype], which ignores a string, and nothing is stored. *)
Definition assign (key message : string) (object : gmap string string) : gmap string string :=
  if decide (key = "__proto__") then object else <[key := message]> object.

(** [newErrors[key] = message] *)
Definition set_error (key message : string) (c : Cycle) : Cycle :=
  {| newActivities := newActivities c; newErrors := assign key message (newErrors c);
     requests := requests c |}.

(** [Math.max(...xs)]; [None] is [-Infinity], the value for no
    argument, which [new Date] turns into an invalid date. *)
Definition Math_max (xs : list Z) : option Z :=
  foldr (fun x acc => Some (match acc with Some m => Z.max x m | None => x end)) None xs.

(** [repo.homepage || null]: the empty string is falsy. *)
Definition or_null (s : option string) : option string :=
  match s with
  | Some h => if decide (h = "") then None else Some h
  | None => None
  end.

(** The callback of [commits.map] on line 65. *)
Definition commit_view (c : Commit.t) : CommitView.t :=
  {| CommitView.message := Commit.message c;
     CommitView.date := Commit.date c;
     CommitView.commitUrl := Commit.html_url c |}.

(** The object literal of lines 58-73. *)
Definition activity (profile : string) (userData : User.t) (repo : Repo.t)
    (commits : list Commit.t) : Activity.t :=
  {| Activity.type := "activity";
     Activity.profile := profile;
     Activity.repo := Repo.name repo;
     Activity.repoUrl := Repo.html_url repo;
     Activity.productionUrl := or_null (Repo.homepage repo);
     Activity.techStack := Repo.language repo;
     Activity.commits := map commit_view commits;
     Activity.repoCount := User.public_repos userData;
     Activity.lastUpdated := Math_max (map Commit.date commits);
     Activity.creationDate := Repo.created_at repo |}.

(** The messages of the TypeErrors that the cycle can run into: reading
    [core] of [undefined] (line 23), reading [remaining] of [undefined]
    (line 25) and [for ... of] over an object that is not iterable
    (line 53). The language fixes the error and leaves its wording to
    the engine, so the cycle is defined for any engine. *)
Class Engine := {
  no_core : string;
  no_remaining : string;
  not_iterable : string
}.

(** The wording of V8. *)
Definition v8 : Engine :=
  {| no_core := "Cannot read properties of undefined (reading 'core')";
     no_remaining := "Cannot read properties of undefined (reading 'remaining')";
     not_iterable := "repos is not iterable" |}.

Section Watcher.

Context {engine : Engine}.

(** Lines 54-74, the body of [for (const repo of repos)]. A commits
    payload that is not an array has no [length], and [undefined > 0]
    is false. *)
Definition repo_body (remote : Remote) (profile : string) (userData : User.t)
    (repo : Repo.t) : Async unit :=
  commitsResponse <- fetch (GetCommits profile (Repo.name repo))
                           (fetch_commits remote profile (Repo.name repo)) ;;
  commits <- await_json commitsResponse ;;
  match commits with
  | Doc (c :: cs) => push (activity profile userData repo (c :: cs))
  | Doc [] => ret tt
  | ErrorDoc => ret tt
  end.

(** [for (const x of xs) body(x)] *)
Fixpoint for_of {A} (xs : list A) (body : A -> Async unit) : Async unit :=
  match xs with
  | [] => ret tt
  | x :: xs' => body x ;;; for_of xs' body
  end.

(** Lines 36-75, the [try] block for one profile. The early [continue]
    of line 47 ends the block normally. *)
Definition try_block (remote : Remote) (profile : string) : Async unit :=
  userResponse <- fetch (GetUser profile) (fetch_user remote profile) ;;
  if negb (ok userResponse) then throw ("User " +:+ profile +:+ " not found")
  else
    userData <- await_json userResponse ;;
    reposResponse <- fetch (GetRepos profile) (fetch_repos remote profile) ;;
    repos <- await_json reposResponse ;;
    match repos with
    | Doc [] =>
        fun c => (set_error profile ("No public repositories found for " +:+ profile) c,
                  Normal tt)
    | Doc rs => for_of rs (repo_body remote profile userData)
    | ErrorDoc => throw not_iterable
    end.

(** Lines 35-78: the [try] block and its [catch]. *)
Definition profile_body (remote : Remote) (profile : string) (c : Cycle) : Cycle :=
  match try_block remote profile c with
  | (c', Normal _) => c'
  | (c', Throw message) => set_error profile message c'
  end.

(** Lines 34-79. *)
Definition for_profiles (remote : Remote) (ps : list string) (c : Cycle) : Cycle :=
  foldl (fun c p => profile_body remote p c) c ps.

Definition quota_message : string :=
  "API rate limit exceeded. Please wait or add a Personal Access Token.".

(** Lines 20-32. The result says whether the cycle goes on; [false] is
    one of the two [return]s. Without [resources], line 23 throws before
    it sets anything; with [resources] but no [core], line 23 sets the
    status to [undefined] and line 25 throws. *)
Definition check_rate_limit (remote : Remote) (st : State) : State * bool :=
  let failed st message :=
    (setErrors {[ "global" := "Error checking rate limit: " +:+ message ]} st, false) in
  match fetch_rate_limit remote with
  | Throw message => failed st message
  | Normal rateLimitResponse =>
      match json rateLimitResponse with
      | Throw message => failed st message
      | Normal ErrorDoc => failed st no_core
      | Normal (Doc resources) =>
          let st' := setRateLimit (Resources.core resources) st in
          match Resources.core resources with
          | None => failed st' no_remaining
          | Some core =>
              if (Core.remaining core =? 0)%Z then
                (setErrors {[ "global" := quota_message ]} st', false)
              else (st', true)
          end
      end
  end.

Definition empty_cycle : Cycle :=
  {| newActivities := []; newErrors := ∅; requests := [] |}.

(** One cycle: the state it leaves and the requests it issued. *)
Definition fetchData (remote : Remote) (st : State) : State * list Request :=
  match check_rate_limit remote st with
  | (st', false) => (st', [GetRateLimit])
  | (st', true) =>
      let c := for_profiles remote (profiles st) empty_cycle in
      (setErrors (newErrors c) (setActivities (newActivities c) st'),
       GetRateLimit :: requests c)
  end.

(** ** The effect (lines 15 and 84-89) and the timers

    [useEffect(effect, [profiles, token])] runs [effect] after the first
    render and after every render in which [profiles] or [token] changed,
    calling the cleanup the previous run returned first; unmounting calls
    the last cleanup.  [setInterval(f, ms)] arms a timer that calls [f]
    every [ms] milliseconds until [clearInterval] takes it away.  The
    runtime below is that contract, with a clock in milliseconds. *)

(** What the [fetchData] of one effect run closes over: the cycles it
    starts run over these profiles, with these headers. *)
Record Closure := {
  closed_profiles : list string;
  closed_headers : option string
}.

Record Timer := {
  callback : Closure;
  delay : Z;
  due : Z
}.

Record Runtime := {
  clock : Z;
  timers : gmap nat Timer;
  next_id : nat;
  started : list (Z * Closure)
}.

(** [fetchData()]: a cycle starts now. *)
Definition call (f : Closure) (rt : Runtime) : Runtime :=
  {| clock := clock rt; timers := timers rt; next_id := next_id rt;
     started := started rt ++ [(clock rt, f)] |}.

Definition setInterval (f : Closure) (ms : Z) (rt : Runtime) : Runtime * nat :=
  ({| clock := clock rt;
      timers := <[next_id rt := {| callback := f; delay := ms; due := clock rt + ms |}]>
                  (timers rt);
      next_id := S (next_id rt);
      started := started rt |},
   next_id rt).

Definition clearInterval (id : nat) (rt : Runtime) : Runtime :=
  {| clock := clock rt; timers := delete id (timers rt); next_id := next_id rt;
     started := started rt |}.

(** Lines 84-88. The result carries the interval that the returned
    cleanup clears; there is no cleanup when [profiles] is empty. *)
Definition effect (ps : list string) (tok : string) (rt : Runtime) : Runtime * option nat :=
  if (0 <? length ps)%nat then
    let f := {| closed_profiles := ps; closed_headers := headers tok |} in
    let rt1 := call f rt in
    let (rt2, interval) := setInterval f 100000 rt1 in
    (rt2, Some interval)
  else (rt, None).

(** The mounted component as the scheduler sees it: the dependencies of
    the last effect run and the interval its cleanup clears. *)
Record Instance := {
  runtime : Runtime;
  mounted : bool;
  deps : option (list string * string);
  cleanup : option nat
}.

Inductive Event : Type :=
  | Render (ps : list string) (tok : string)
  | Unmount
  | Elapse (ms : Z)
  | Fire (id : nat).

Definition run_cleanup (i : Instance) : Runtime :=
  match cleanup i with
  | Some interval => clearInterval interval (runtime i)
  | None => runtime i
  end.

(** The timer [id] fires if it is armed and due: its callback is called
    and it is due again one [delay] later. *)
Definition fire (id : nat) (rt : Runtime) : Runtime :=
  match timers rt !! id with
  | Some t =>
      if (due t <=? clock rt)%Z then
        let rt1 := call (callback t) rt in
        {| clock := clock rt1;
           timers := <[id := {| callback := callback t; delay := delay t;
                                due := due t + delay t |}]> (timers rt1);
           next_id := next_id rt1; started := started rt1 |}
      else rt
  | None => rt
  end.

Definition step (i : Instance) (e : Event) : Instance :=
  match e with
  | Render ps tok =>
      if negb (mounted i) then i
      else if decide (deps i = Some (ps, tok)) then i
      else
        let (rt, c) := effect ps tok (run_cleanup i) in
        {| runtime := rt; mounted := true; deps := Some (ps, tok); cleanup := c |}
  | Unmount =>
      {| runtime := run_cleanup i; mounted := false; deps := deps i; cleanup := None |}
  | Elapse ms =>
      {| runtime := {| clock := clock (runtime i) + Z.max 0 ms;
                       timers := timers (runtime i);
                       next_id := next_id (runtime i);
                       started := started (runtime i) |};
         mounted := mounted i; deps := deps i; cleanup := cleanup i |}
  | Fire id =>
      {| runtime := fire id (runtime i); mounted := mounted i; deps := deps i;
         cleanup := cleanup i |}
  end.

Definition run (es : list Event) (i : Instance) : Instance := foldl step i es.

(** Before the first render. *)
Definition boot : Instance :=
  {| runtime := {| clock := 0; timers := ∅; next_id := 0; started := [] |};
     mounted := true; deps := None; cleanup := None |}.

(** React renders after every state change and then runs the effect
    against the [profiles] and [token] of that render. *)
Definition commit (st : State) (i : Instance) : Instance :=
  step i (Render (profiles st) (token st)).

(** ** The cards (lines 166-223)

    The callback of [activities.map] and, inside it, the callback of
    [activity.commits.map]: what a card shows of one activity. Class
    names and animation settings, which do not depend on the activity,
    are left out; a date is shown through [toLocaleDateString] and
    [toLocaleTimeString], of which only the instant is kept. *)

(** Lines 205-219: one entry of the commit history, with its [key]. *)
Record CommitLine := {
  line_key : nat;
  line_message : string;
  line_date : Z;
  line_href : string
}.

Record Card := {
  card_key : nat;
  card_profile : string;
  card_repo : string;
  card_repo_href : string;
  card_production : option string;
  card_tech : string;
  card_commits : list CommitLine
}.

(** [x && <p>... x ...</p>]: the paragraph is there when [x] is neither
    [null] nor empty. *)
Definition when_truthy (x : option string) : option string :=
  match x with
  | Some h => if decide (h = "") then None else Some h
  | None => None
  end.

(** [x || fallback] *)
Definition or_else (x : option string) (fallback : string) : string :=
  match x with
  | Some h => if decide (h = "") then fallback else h
  | None => fallback
  end.

Definition commit_line (idx : nat) (c : CommitView.t) : CommitLine :=
  {| line_key := idx;
     line_message := CommitView.message c;
     line_date := CommitView.date c;
     line_href := CommitView.commitUrl c |}.

Definition card (index : nat) (a : Activity.t) : Card :=
  {| card_key := index;
     card_profile := Activity.profile a;
     card_repo := Activity.repo a;
     card_repo_href := Activity.repoUrl a;
     card_production := when_truthy (Activity.productionUrl a);
     card_tech := or_else (Activity.techStack a) "Unknown";
     card_commits := imap commit_line (Activity.commits a) |}.

(** Lines 165-224. *)
Definition cards (st : State) : list Card := imap card (activities st).

(** * Definitions used by the statements *)

(** ** What one account contributes, written out

    [scan] and [account_outcome] restate the per-account algorithm as a
    plain recursion: the records built, the message left under the
    account's key (if any) and the requests issued.  [profile_body_outcome]
    below shows that the loop body of [fetchData] computes exactly this,
    whatever the accumulators held before. *)

Record Outcome := {
  records : list Activity.t;
  failure : option string;
  issued : list Request
}.

(** The record one repository yields from a commits payload. *)
Definition payload_records (p : string) (userData : User.t) (r : Repo.t)
    (payload : Json (list Commit.t)) : list Activity.t :=
  match payload with
  | Doc (c :: cs) => [activity p userData r (c :: cs)]
  | Doc [] => []
  | ErrorDoc => []
  end.

(** Repositories in order, up to the first commits request that throws. *)
Fixpoint scan (remote : Remote) (p : string) (userData : User.t)
    (rs : list Repo.t) : Outcome :=
  match rs with
  | [] => {| records := []; failure := None; issued := [] |}
  | r :: rs' =>
      let req := GetCommits p (Repo.name r) in
      let thrown message :=
        {| records := []; failure := Some message; issued := [req] |} in
      match fetch_commits remote p (Repo.name r) with
      | Throw message => thrown message
      | Normal resp =>
          match json resp with
          | Throw message => thrown message
          | Normal payload =>
              let o := scan remote p userData rs' in
              {| records := payload_records p userData r payload ++ records o;
                 failure := failure o;
                 issued := req :: issued o |}
          end
      end
  end.

(** The account as a whole: profile, repository list, then [scan]. *)
Definition account_outcome (remote : Remote) (p : string) : Outcome :=
  let failed message reqs :=
    {| records := []; failure := Some message; issued := reqs |} in
  match fetch_user remote p with
  | Throw message => failed message [GetUser p]
  | Normal resp =>
      if ok resp then
        match json resp with
        | Throw message => failed message [GetUser p]
        | Normal userData =>
            match fetch_repos remote p with
            | Throw message => failed message [GetUser p; GetRepos p]
            | Normal rresp =>
                match json rresp with
                | Throw message => failed message [GetUser p; GetRepos p]
                | Normal ErrorDoc => failed not_iterable [GetUser p; GetRepos p]
                | Normal (Doc []) =>
                    failed ("No public repositories found for " +:+ p)
                           [GetUser p; GetRepos p]
                | Normal (Doc rs) =>
                    let o := scan remote p userData rs in
                    {| records := records o; failure := failure o;
                       issued := GetUser p :: GetRepos p :: issued o |}
                end
            end
        end
      else failed ("User " +:+ p +:+ " not found") [GetUser p]
  end.

(** Adding an outcome to the accumulators. *)
Definition absorb (p : string) (o : Outcome) (c : Cycle) : Cycle :=
  {| newActivities := newActivities c ++ records o;
     newErrors := match failure o with
                  | Some message => assign p message (newErrors c)
                  | None => newErrors c
                  end;
     requests := requests c ++ issued o |}.

(** How the loop over the repositories completes. *)
Definition completion_of (o : Outcome) : Completion unit :=
  match failure o with
  | Some message => Throw message
  | None => Normal tt
  end.

(** ** The gate, records and requests *)

(** The rate-limit check lets the cycle go on to the accounts. *)
Definition gate_open (remote : Remote) (st : State) : bool :=
  snd (check_rate_limit remote st).

(** A record of an account was built from that account's profile, one
    of its repositories and the non-empty commits payload of that
    repository. *)
Inductive built (remote : Remote) (p : string) : Activity.t -> Prop :=
  | built_from uresp userData rresp rs r resp cs :
      fetch_user remote p = Normal uresp -> ok uresp = true ->
      json uresp = Normal userData ->
      fetch_repos remote p = Normal rresp -> json rresp = Normal (Doc rs) ->
      r ∈ rs ->
      fetch_commits remote p (Repo.name r) = Normal resp ->
      json resp = Normal (Doc cs) -> cs ≠ [] ->
      built remote p (activity p userData r cs).

(** The account a request is about; [None] for the rate-limit request. *)
Definition request_profile (r : Request) : option string :=
  match r with
  | GetRateLimit => None
  | GetUser p | GetRepos p | GetCommits p _ => Some p
  end.

(** ** Failures *)

(** The ways the rate-limit check of lines 21-23 throws before it sets
    anything: the request is rejected (unreachable), the body is not
    JSON, or the body has no [resources], as the error document of a
    non-success status has none, so that reading [resources.core] raises
    a TypeError. The argument is the message. *)
Inductive rate_limit_fails (remote : Remote) : string -> Prop :=
  | rejected message :
      fetch_rate_limit remote = Throw message ->
      rate_limit_fails remote message
  | unreadable resp message :
      fetch_rate_limit remote = Normal resp -> json resp = Throw message ->
      rate_limit_fails remote message
  | error_document resp :
      fetch_rate_limit remote = Normal resp -> json resp = Normal ErrorDoc ->
      rate_limit_fails remote no_core.

(** The ways the profile lookup of lines 36-40 throws: the request is
    rejected, the status is not a success, or the body is not JSON. The
    last argument is the message. *)
Inductive lookup_fails (remote : Remote) (p : string) : string -> Prop :=
  | lookup_rejected message :
      fetch_user remote p = Throw message -> lookup_fails remote p message
  | lookup_not_ok resp :
      fetch_user remote p = Normal resp -> ok resp = false ->
      lookup_fails remote p ("User " +:+ p +:+ " not found")
  | lookup_unreadable resp message :
      fetch_user remote p = Normal resp -> ok resp = true ->
      json resp = Throw message -> lookup_fails remote p message.

(** The commits request of a repository settles to a JSON payload. *)
Definition commits_settle (remote : Remote) (p : string) (r : Repo.t)
    (payload : Json (list Commit.t)) : Prop :=
  exists resp,
    fetch_commits remote p (Repo.name r) = Normal resp /\ json resp = Normal payload.

(** The commits request of a repository throws: rejected, or not JSON. *)
Definition commits_throw (remote : Remote) (p : string) (r : Repo.t)
    (message : string) : Prop :=
  fetch_commits remote p (Repo.name r) = Throw message \/
  exists resp,
    fetch_commits remote p (Repo.name r) = Normal resp /\ json resp = Throw message.

(** The records of one repository whose commits request settles. *)
Definition repo_records (remote : Remote) (p : string) (userData : User.t)
    (r : Repo.t) : list Activity.t :=
  match fetch_commits remote p (Repo.name r) with
  | Normal resp =>
      match json resp with
      | Normal payload => payload_records p userData r payload
      | Throw _ => []
      end
  | Throw _ => []
  end.

(** The commits request line 54 issues for a repository. *)
Definition commits_request (p : string) (r : Repo.t) : Request :=
  GetCommits p (Repo.name r).

(** The state with the tracked list cut to [before ++ after]: one
    account taken out. *)
Definition untrack (before after : list string) (st : State) : State :=
  setProfiles (fun _ => before ++ after) st.

(** ** Status flags *)

(** The same response with another [ok] flag. *)
Definition with_ok {A} (b : bool) (r : Completion (Response A)) : Completion (Response A) :=
  match r with
  | Normal resp => Normal {| ok := b; json := json resp |}
  | Throw message => Throw message
  end.

(** The service with the status of every rate-limit, repositories and
    commits response replaced. *)
Definition with_status (b : bool) (remote : Remote) : Remote :=
  {| fetch_rate_limit := with_ok b (fetch_rate_limit remote);
     fetch_user := fetch_user remote;
     fetch_repos := fun p => with_ok b (fetch_repos remote p);
     fetch_commits := fun p r => with_ok b (fetch_commits remote p r) |}.

(** ** States of the component and of the scheduler *)

(** The states of the component: mounted with no profile, then any
    typing into the two fields, submitting of the form and cycles. *)
Inductive reachable : State -> Prop :=
  | reach_mount st : profiles st = [] -> reachable st
  | reach_type st s : reachable st -> reachable (setNewProfiles s st)
  | reach_token st tok : reachable st -> reachable (setToken tok st)
  | reach_submit st : reachable st -> reachable (handleAddProfiles st)
  | reach_cycle st remote : reachable st -> reachable (fst (fetchData remote st)).

(** No character of the string is a comma. *)
Fixpoint comma_free (s : string) : Prop :=
  match s with
  | EmptyString => True
  | String c s' => c ≠ comma /\ comma_free s'
  end.

(** The string is empty or starts with a character that is not white. *)
Definition starts_black (s : string) : Prop :=
  match s with
  | EmptyString => True
  | String c _ => is_white c = false
  end.

(** Time passing and timers firing; no render, no unmount. *)
Definition passive (e : Event) : Prop :=
  match e with
  | Elapse _ | Fire _ => True
  | Render _ _ | Unmount => False
  end.

(** The armed timers are exactly the interval of the pending cleanup,
    and there is one only while mounted on a non-empty list. *)
Definition scheduled (i : Instance) : Prop :=
  match cleanup i with
  | Some interval =>
      exists t ps tok,
        timers (runtime i) = {[ interval := t ]} /\ delay t = 100000%Z /\
        mounted i = true /\ deps i = Some (ps, tok) /\ ps ≠ [] /\
        callback t = {| closed_profiles := ps; closed_headers := headers tok |}
  | None =>
      timers (runtime i) = ∅ /\
      (mounted i = true -> deps i = None \/ exists tok, deps i = Some ([], tok))
  end.

(** ** Concrete services, used to run the cycle *)

(** A success response with body [a]. *)
Definition resolved {A} (a : A) : Completion (Response A) :=
  Normal {| ok := true; json := Normal a |}.

(** A non-success response; the cycle never parses its body. *)
Definition not_found {A} : Completion (Response A) :=
  Normal {| ok := false; json := Throw "Unexpected token" |}.

Definition core_with (left : Z) : Core.t :=
  {| Core.limit := 60; Core.remaining := left; Core.reset := 1727400000 |}.

Definition repo_x : Repo.t :=
  {| Repo.name := "x"; Repo.html_url := "https://github.com/alice/x";
     Repo.homepage := Some ""; Repo.language := Some "Go";
     Repo.created_at := 1700000000000 |}.

Definition repo_y : Repo.t :=
  {| Repo.name := "y"; Repo.html_url := "https://github.com/alice/y";
     Repo.homepage := None; Repo.language := None;
     Repo.created_at := 1690000000000 |}.

Definition commit_at (when : Z) (msg : string) : Commit.t :=
  {| Commit.message := msg; Commit.date := when;
     Commit.html_url := "https://github.com/alice/x/commit/1" |}.

(** [alice] has repositories [x] (two commits) and [y], [dave] has [y]
    only, [carol] has no repository, every other profile is unknown.
    [left] is the remaining quota, [y_commits] what the commits request
    of a repository [y] settles to. *)
Definition service (left : Z)
    (y_commits : Completion (Response (Json (list Commit.t)))) : Remote :=
  {| fetch_rate_limit := resolved (Doc {| Resources.core := Some (core_with left) |});
     fetch_user := fun p =>
       if decide (p = "alice") then resolved {| User.public_repos := 7 |}
       else if decide (p = "carol") then resolved {| User.public_repos := 0 |}
       else if decide (p = "dave") then resolved {| User.public_repos := 1 |}
       else not_found;
     fetch_repos := fun p =>
       if decide (p = "alice") then resolved (Doc [repo_x; repo_y])
       else if decide (p = "dave") then resolved (Doc [repo_y])
       else resolved (Doc []);
     fetch_commits := fun p r =>
       if decide (r = "x") then
         resolved (Doc [commit_at 1727517600000 "first";
                        commit_at 1727604000000 "second"])
       else y_commits |}.

(** The rate-limit request does not settle to the documented document. *)
Definition service_down (settled : Completion (Response (Json Resources.t))) : Remote :=
  {| fetch_rate_limit := settled;
     fetch_user := fun _ => not_found;
     fetch_repos := fun _ => resolved (Doc []);
     fetch_commits := fun _ _ => resolved (Doc []) |}.

(** A record published by an earlier cycle. *)
Definition old_activity : Activity.t :=
  activity "zed" {| User.public_repos := 1 |} repo_y [commit_at 1 "old"].

(** A state left by an earlier cycle. *)
Definition tracking (ps : list string) : State :=
  {| profiles := ps; newProfiles := ""; activities := [old_activity];
     errors := {[ "zed" := "stale" ]}; token := ""; rateLimit := None |}.

(** [alice]'s repository [x] has commits and the commits request of her
    next repository [y] is rejected. *)
Definition service_y_rejected : Remote := service 5 (Throw "Failed to fetch").

(** Every repository [y] has one commit. *)
Definition service_y_active : Remote :=
  service 5 (resolved (Doc [commit_at 1727690400000 "third"])).

(** The form with [s] typed into the account field. *)
Definition form (ps : list string) (s : string) : State :=
  {| profiles := ps; newProfiles := s; activities := []; errors := ∅;
     token := ""; rateLimit := None |}.

(** [alice] has [x], with one commit of 28 September 2024 at 10:00 UTC,
    and [y], with none since the reference date; the lookup of [bob] is
    answered 404. *)
Definition two_accounts : Remote :=
  {| fetch_rate_limit := resolved (Doc {| Resources.core := Some (core_with 58) |});
     fetch_user := fun p =>
       if decide (p = "alice") then resolved {| User.public_repos := 2 |}
       else not_found;
     fetch_repos := fun _ => resolved (Doc [repo_x; repo_y]);
     fetch_commits := fun _ r =>
       if decide (r = "x") then resolved (Doc [commit_at 1727517600000 "first"])
       else resolved (Doc []) |}.

(** [service_y_active] with a non-success status on the rate-limit
    response, whose body is the documented one. *)
Definition service_limit_refused : Remote :=
  {| fetch_rate_limit :=
       Normal {| ok := false;
                 json := Normal (Doc {| Resources.core := Some (core_with 5) |}) |};
     fetch_user := fetch_user service_y_active;
     fetch_repos := fetch_repos service_y_active;
     fetch_commits := fetch_commits service_y_active |}.

(** The remote answers every repository listing with an error document. *)
Definition service_listing_refused : Remote :=
  {| fetch_rate_limit := resolved (Doc {| Resources.core := Some (core_with 5) |});
     fetch_user := fun _ => resolved {| User.public_repos := 3 |};
     fetch_repos := fun _ => Normal {| ok := false; json := Normal ErrorDoc |};
     fetch_commits := fun _ _ => resolved (Doc []) |}.

(** Every account exists and has no repository. *)
Definition service_no_repositories : Remote :=
  {| fetch_rate_limit := resolved (Doc {| Resources.core := Some (core_with 5) |});
     fetch_user := fun _ => resolved {| User.public_repos := 0 |};
     fetch_repos := fun _ => resolved (Doc []);
     fetch_commits := fun _ _ => resolved (Doc []) |}.

(** ** Submissions *)

(** Every character is white. *)
Fixpoint all_white (s : string) : Prop :=
  match s with
  | EmptyString => True
  | String c s' => is_white c = true /\ all_white s'
  end.

(** The text holds nothing but white space and commas. *)
Fixpoint blank (s : string) : Prop :=
  match s with
  | EmptyString => True
  | String c s' => (is_white c = true \/ c = comma) /\ blank s'
  end.

(** A name as the form stores it: not empty, no comma, nothing for
    [trim] to take away. *)
Definition clean (p : string) : Prop :=
  p ≠ "" /\ comma_free p /\ trim p = p.

(** ** Cycles over part of the list *)

(** The cycle run with [ps] as the tracked list. *)
Definition cycle_over (remote : Remote) (ps : list string) (st : State) : State * list Request :=
  fetchData remote (setProfiles (fun _ => ps) st).

(** * The cycle *)

(** ** The loops compute the outcomes *)

Lemma cycle_eta (c : Cycle) :
  {| newActivities := newActivities c; newErrors := newErrors c;
     requests := requests c |} = c.
Proof. by destruct c. Qed.

Lemma for_of_scan remote p userData rs c :
  for_of rs (repo_body remote p userData) c =
  let o := scan remote p userData rs in
  ({| newActivities := newActivities c ++ records o;
      newErrors := newErrors c;
      requests := requests c ++ issued o |}, completion_of o).
Proof.
  revert c. induction rs as [|r rs IH]; intros c; simpl.
  - unfold ret, completion_of. simpl. rewrite !app_nil_r. by rewrite cycle_eta.
  - unfold bind at 1. unfold repo_body, bind, fetch, await_json.
    destruct (fetch_commits remote p (Repo.name r)) as [resp|m]; simpl;
      [|rewrite app_nil_r; reflexivity].
    destruct (json resp) as [payload|m]; simpl;
      [|rewrite app_nil_r; reflexivity].
    destruct payload as [[|c0 cs]|]; unfold ret, push; simpl;
      rewrite IH; simpl; rewrite <- ?app_assoc; reflexivity.
Qed.

Lemma profile_body_outcome remote p c :
  profile_body remote p c = absorb p (account_outcome remote p) c.
Proof.
  unfold profile_body, try_block, account_outcome, absorb, bind, fetch,
    await_json, throw, set_error.
  destruct (fetch_user remote p) as [resp|m]; simpl;
    [|by rewrite app_nil_r].
  destruct (ok resp); simpl; [|by rewrite app_nil_r].
  destruct (json resp) as [userData|m]; simpl; [|by rewrite app_nil_r].
  destruct (fetch_repos remote p) as [rresp|m]; simpl;
    [|by rewrite app_nil_r, <- app_assoc].
  destruct (json rresp) as [[[|r rs]|]|m];
    try (simpl; by rewrite app_nil_r, <- app_assoc).
  rewrite (for_of_scan remote p userData (r :: rs)).
  cbv zeta. unfold completion_of.
  cbn [newActivities newErrors requests records failure issued].
  destruct (failure (scan remote p userData (r :: rs)));
    by rewrite <- !app_assoc.
Qed.

Lemma for_profiles_cons remote p ps c :
  for_profiles remote (p :: ps) c = for_profiles remote ps (profile_body remote p c).
Proof. reflexivity. Qed.

Lemma for_profiles_activities remote ps c :
  newActivities (for_profiles remote ps c) =
  newActivities c ++ flat_map (fun p => records (account_outcome remote p)) ps.
Proof.
  revert c. induction ps as [|p ps IH]; intros c.
  - simpl. by rewrite app_nil_r.
  - rewrite for_profiles_cons, IH, profile_body_outcome. simpl.
    by rewrite <- app_assoc.
Qed.

Lemma for_profiles_requests remote ps c :
  requests (for_profiles remote ps c) =
  requests c ++ flat_map (fun p => issued (account_outcome remote p)) ps.
Proof.
  revert c. induction ps as [|p ps IH]; intros c.
  - simpl. by rewrite app_nil_r.
  - rewrite for_profiles_cons, IH, profile_body_outcome. simpl.
    by rewrite <- app_assoc.
Qed.

Lemma lookup_assign key message object q :
  assign key message object !! q =
  if decide (q = key /\ key ≠ "__proto__") then Some message else object !! q.
Proof.
  unfold assign. destruct (decide (key = "__proto__")) as [Hk|Hk].
  - destruct (decide (q = key /\ key ≠ "__proto__")) as [[_ ?]|_]; done.
  - destruct (decide (q = key)) as [->|Hne].
    + rewrite lookup_insert_eq.
      destruct (decide (key = key /\ key ≠ "__proto__")) as [_|H]; [done|].
      by destruct H.
    + rewrite lookup_insert_ne by done.
      destruct (decide (q = key /\ key ≠ "__proto__")) as [[? _]|_]; done.
Qed.

(** The entry under [q] after the loop: the message of [q]'s outcome if
    [q] is in the list, is not [__proto__] and its outcome has one, else
    what was there. *)
Lemma for_profiles_errors remote ps c q :
  newErrors (for_profiles remote ps c) !! q =
  match (if decide (q ∈ ps /\ q ≠ "__proto__")
         then failure (account_outcome remote q) else None) with
  | Some message => Some message
  | None => newErrors c !! q
  end.
Proof.
  revert c. induction ps as [|p ps IH]; intros c.
  - simpl. destruct (decide (q ∈ [] /\ q ≠ "__proto__")) as [[H _]|_]; [|done].
    by apply elem_of_nil in H.
  - rewrite for_profiles_cons, IH, profile_body_outcome.
    assert (Hq : newErrors (absorb p (account_outcome remote p) c) !! q =
              match (if decide (q = p /\ q ≠ "__proto__")
                     then failure (account_outcome remote q) else None) with
              | Some message => Some message
              | None => newErrors c !! q
              end).
    { unfold absorb; simpl.
      destruct (decide (q = p /\ q ≠ "__proto__")) as [[-> Hne]|Hno].
      - destruct (failure (account_outcome remote p)); [|done].
        rewrite lookup_assign.
        destruct (decide (p = p /\ p ≠ "__proto__")) as [_|H]; [done|]. by destruct H.
      - destruct (failure (account_outcome remote p)); [|done].
        rewrite lookup_assign.
        destruct (decide (q = p /\ p ≠ "__proto__")) as [[-> ?]|_]; [|done].
        by destruct Hno. }
    rewrite Hq.
    destruct (decide (q ∈ ps /\ q ≠ "__proto__")) as [[Hin Hne]|Hno].
    + destruct (decide (q ∈ p :: ps /\ q ≠ "__proto__")) as [_|H].
      * destruct (failure (account_outcome remote q)); [done|].
        by destruct (decide (q = p /\ q ≠ "__proto__")).
      * destruct H. split; [by right|done].
    + destruct (decide (q = p /\ q ≠ "__proto__")) as [[-> Hne]|Hno'].
      * destruct (decide (p ∈ p :: ps /\ p ≠ "__proto__")) as [_|H]; [done|].
        destruct H. split; [by left|done].
      * destruct (decide (q ∈ p :: ps /\ q ≠ "__proto__")) as [[Hin Hne]|_]; [|done].
        apply elem_of_cons in Hin as [->|Hin]; [by destruct Hno'|by destruct Hno].
Qed.

(** ** The gate *)

Lemma fetchData_open remote st :
  gate_open remote st = true ->
  fetchData remote st =
  let c := for_profiles remote (profiles st) empty_cycle in
  (setErrors (newErrors c)
     (setActivities (newActivities c) (fst (check_rate_limit remote st))),
   GetRateLimit :: requests c).
Proof.
  unfold gate_open, fetchData.
  destruct (check_rate_limit remote st) as [st' b]; simpl. by intros ->.
Qed.

Lemma fetchData_closed remote st :
  gate_open remote st = false ->
  fetchData remote st = (fst (check_rate_limit remote st), [GetRateLimit]).
Proof.
  unfold gate_open, fetchData.
  destruct (check_rate_limit remote st) as [st' b]; simpl. by intros ->.
Qed.

Lemma open_activities remote st :
  gate_open remote st = true ->
  activities (fst (fetchData remote st)) =
  flat_map (fun p => records (account_outcome remote p)) (profiles st).
Proof.
  intros H. rewrite (fetchData_open _ _ H). simpl.
  by rewrite for_profiles_activities.
Qed.

Lemma open_requests remote st :
  gate_open remote st = true ->
  snd (fetchData remote st) =
  GetRateLimit :: flat_map (fun p => issued (account_outcome remote p)) (profiles st).
Proof.
  intros H. rewrite (fetchData_open _ _ H). simpl.
  by rewrite for_profiles_requests.
Qed.

Lemma open_errors remote st q :
  gate_open remote st = true ->
  errors (fst (fetchData remote st)) !! q =
  if decide (q ∈ profiles st /\ q ≠ "__proto__")
  then failure (account_outcome remote q) else None.
Proof.
  intros H. rewrite (fetchData_open _ _ H). simpl.
  rewrite for_profiles_errors. simpl. rewrite lookup_empty.
  destruct (decide (q ∈ profiles st /\ q ≠ "__proto__")); [|done].
  by destruct (failure (account_outcome remote q)).
Qed.

(** The entry of a tracked account other than [__proto__]. *)
Lemma open_errors_tracked remote st p :
  gate_open remote st = true ->
  p ∈ profiles st -> p ≠ "__proto__" ->
  errors (fst (fetchData remote st)) !! p = failure (account_outcome remote p).
Proof.
  intros Hopen Hin Hne. rewrite (open_errors _ _ _ Hopen).
  destruct (decide (p ∈ profiles st /\ p ≠ "__proto__")) as [_|H]; [done|].
  by destruct H.
Qed.

(** The entry of a tracked account. *)
Lemma open_errors_at remote st p :
  gate_open remote st = true ->
  p ∈ profiles st ->
  errors (fst (fetchData remote st)) !! p =
  if decide (p = "__proto__") then None else failure (account_outcome remote p).
Proof.
  intros Hopen Hin. rewrite (open_errors _ _ _ Hopen).
  destruct (decide (p = "__proto__")) as [Hp|Hp];
    destruct (decide (p ∈ profiles st /\ p ≠ "__proto__")) as [[_ ?]|H]; try done.
  by destruct H.
Qed.

(** No entry without a failure. *)
Lemma open_errors_none remote st p :
  gate_open remote st = true ->
  failure (account_outcome remote p) = None ->
  errors (fst (fetchData remote st)) !! p = None.
Proof.
  intros Hopen Hnone. rewrite (open_errors _ _ _ Hopen), Hnone.
  by destruct (decide (p ∈ profiles st /\ p ≠ "__proto__")).
Qed.

Lemma gate_open_state remote st st' : gate_open remote st = gate_open remote st'.
Proof.
  unfold gate_open, check_rate_limit.
  destruct (fetch_rate_limit remote) as [resp|m]; [|done].
  destruct (json resp) as [[[[core|]]|]|m]; try done; cbn [Resources.core].
  by destruct (Core.remaining core =? 0)%Z.
Qed.

(** ** Facts about outcomes *)

Lemma Math_max_spec (xs : list Z) :
  xs ≠ [] ->
  exists m, Math_max xs = Some m /\ m ∈ xs /\ forall d, d ∈ xs -> (d <= m)%Z.
Proof.
  induction xs as [|x xs IH]; [done|]. intros _.
  destruct xs as [|y ys].
  - exists x. simpl. split; [done|]. split; [by left|].
    intros d Hd. apply list_elem_of_singleton in Hd. lia.
  - destruct IH as (m & Hm & Hin & Hle); [done|].
    exists (Z.max x m). split.
    + change (Math_max (x :: y :: ys)) with
        (Some (match Math_max (y :: ys) with
               | Some m => Z.max x m | None => x end)).
      by rewrite Hm.
    + split.
      * destruct (Z.max_spec x m) as [[_ ->]|[_ ->]]; [by right|by left].
      * intros d Hd. apply elem_of_cons in Hd as [->|Hd]; [lia|].
        specialize (Hle d Hd). lia.
Qed.

(** Where a record of [scan] comes from. *)
Lemma scan_records_inv remote p userData rs a :
  a ∈ records (scan remote p userData rs) ->
  exists r resp cs,
    r ∈ rs /\ fetch_commits remote p (Repo.name r) = Normal resp /\
    json resp = Normal (Doc cs) /\ cs ≠ [] /\ a = activity p userData r cs.
Proof.
  induction rs as [|r rs IH]; simpl; [by intros H; apply elem_of_nil in H|].
  destruct (fetch_commits remote p (Repo.name r)) as [resp|m] eqn:Hf;
    [|by intros H; apply elem_of_nil in H].
  destruct (json resp) as [payload|m] eqn:Hj;
    [|by intros H; apply elem_of_nil in H].
  simpl. intros H. apply elem_of_app in H as [H|H].
  - destruct payload as [[|c cs]|]; simpl in H;
      try (by apply elem_of_nil in H).
    apply list_elem_of_singleton in H as ->.
    exists r, resp, (c :: cs). repeat split; try done. by left.
  - destruct (IH H) as (r' & resp' & cs & Hin & ? & ? & ? & ?).
    exists r', resp', cs. repeat split; try done. by right.
Qed.

(** The records of [scan] follow the order of the repositories. *)
Lemma scan_records_sublist remote p userData rs :
  sublist (map Activity.repo (records (scan remote p userData rs)))
          (map Repo.name rs).
Proof.
  induction rs as [|r rs IH]; simpl; [constructor|].
  destruct (fetch_commits remote p (Repo.name r)) as [resp|m];
    [|apply sublist_nil_l].
  destruct (json resp) as [payload|m]; [|apply sublist_nil_l].
  simpl. destruct payload as [[|c cs]|]; simpl.
  - by apply sublist_cons.
  - by apply sublist_skip.
  - by apply sublist_cons.
Qed.

Lemma account_records_built remote p a :
  a ∈ records (account_outcome remote p) -> built remote p a.
Proof.
  unfold account_outcome.
  destruct (fetch_user remote p) as [uresp|m] eqn:Hu;
    [|by intros H; apply elem_of_nil in H].
  destruct (ok uresp) eqn:Hok; [|by intros H; apply elem_of_nil in H].
  destruct (json uresp) as [userData|m] eqn:Hud;
    [|by intros H; apply elem_of_nil in H].
  destruct (fetch_repos remote p) as [rresp|m] eqn:Hr;
    [|by intros H; apply elem_of_nil in H].
  destruct (json rresp) as [[[|r0 rs]|]|m] eqn:Hrs;
    try (by intros H; apply elem_of_nil in H).
  cbn [records]. intros H.
  apply scan_records_inv in H as (r & resp & cs & Hin & Hc & Hj & Hne & ->).
  by eapply built_from.
Qed.

Lemma built_profile remote p a : built remote p a -> Activity.profile a = p.
Proof. by intros []. Qed.

Lemma open_activity_built remote st a :
  gate_open remote st = true ->
  a ∈ activities (fst (fetchData remote st)) ->
  Activity.profile a ∈ profiles st /\ built remote (Activity.profile a) a.
Proof.
  intros Hopen Ha. rewrite (open_activities _ _ Hopen) in Ha.
  apply list_elem_of_In, in_flat_map in Ha as (p & Hp & Ha).
  apply list_elem_of_In in Hp, Ha.
  apply account_records_built in Ha.
  rewrite (built_profile _ _ _ Ha). done.
Qed.

Lemma scan_issued_profile remote p userData rs req :
  req ∈ issued (scan remote p userData rs) -> request_profile req = Some p.
Proof.
  induction rs as [|r rs IH]; simpl; [by intros H; apply elem_of_nil in H|].
  destruct (fetch_commits remote p (Repo.name r)) as [resp|m].
  - destruct (json resp) as [payload|m]; simpl.
    + intros H. apply elem_of_cons in H as [->|H]; [done|auto].
    + intros H. by apply list_elem_of_singleton in H as ->.
  - simpl. intros H. by apply list_elem_of_singleton in H as ->.
Qed.

Lemma account_issued_profile remote p req :
  req ∈ issued (account_outcome remote p) -> request_profile req = Some p.
Proof.
  unfold account_outcome.
  assert (H1 : req ∈ [GetUser p] -> request_profile req = Some p).
  { intros H. by apply list_elem_of_singleton in H as ->. }
  assert (H2 : req ∈ [GetUser p; GetRepos p] -> request_profile req = Some p).
  { intros H. apply elem_of_cons in H as [->|H]; [done|].
    by apply list_elem_of_singleton in H as ->. }
  destruct (fetch_user remote p) as [uresp|m]; [|done].
  destruct (ok uresp); [|done].
  destruct (json uresp) as [userData|m]; [|done].
  destruct (fetch_repos remote p) as [rresp|m]; [|done].
  destruct (json rresp) as [[[|r0 rs]|]|m]; try done.
  cbn [issued]. intros H.
  apply elem_of_cons in H as [->|H]; [done|].
  apply elem_of_cons in H as [->|H]; [done|].
  by eapply scan_issued_profile.
Qed.

Lemma open_request_issued remote st req p :
  gate_open remote st = true ->
  req ∈ snd (fetchData remote st) -> request_profile req = Some p ->
  p ∈ profiles st /\ req ∈ issued (account_outcome remote p).
Proof.
  intros Hopen Hreq Hp. rewrite (open_requests _ _ Hopen) in Hreq.
  apply elem_of_cons in Hreq as [->|Hreq]; [done|].
  apply list_elem_of_In, in_flat_map in Hreq as (q & Hq & Hreq).
  apply list_elem_of_In in Hq, Hreq.
  pose proof (account_issued_profile _ _ _ Hreq) as Hq'.
  rewrite Hp in Hq'. by simplify_eq.
Qed.

(** ** Cycle-level aborts *)

(** C2. When the rate-limit request succeeds and reports [remaining = 0],
    the cycle issues the rate-limit request only and returns the state
    with [activities] (and the form fields) as they were: [errors] is
    replaced by the single entry [global] with the quota message and
    [rateLimit] by the reported status. *)
Theorem quota_exhausted_keeps_activities remote st resp core :
  fetch_rate_limit remote = Normal resp ->
  json resp = Normal (Doc {| Resources.core := Some core |}) ->
  Core.remaining core = 0%Z ->
  fetchData remote st =
  ({| profiles := profiles st; newProfiles := newProfiles st;
      activities := activities st;
      errors := {[ "global" := quota_message ]};
      token := token st; rateLimit := Some core |},
   [GetRateLimit]).
Proof.
  intros Hf Hj Hz. unfold fetchData, check_rate_limit.
  rewrite Hf, Hj. cbn [Resources.core]. rewrite Hz. reflexivity.
Qed.

(** C3, as amended. When the rate-limit check throws, the cycle issues
    no other request and [errors] becomes the single entry [global] with
    the failure message, so that no account has an entry. The state is
    otherwise as it was when the request is rejected, the body is not
    JSON or the body has no [resources]; when the body has [resources]
    without [core], the rate-limit status is [undefined] besides. When
    the quota is exhausted, [errors] is likewise the single entry
    [global] and no account-level request is issued. The status of the
    response is not looked at: a response with [resources.core] and
    quota left lets the cycle go on to the accounts, whatever its
    status. *)
Theorem rate_limit_failure_aborts_cycle remote st :
  (forall message, rate_limit_fails remote message ->
     fetchData remote st =
     (setErrors {[ "global" := "Error checking rate limit: " +:+ message ]} st,
      [GetRateLimit])) /\
  (forall resp,
     fetch_rate_limit remote = Normal resp ->
     json resp = Normal (Doc {| Resources.core := None |}) ->
     fetchData remote st =
     (setErrors {[ "global" := "Error checking rate limit: " +:+ no_remaining ]}
                (setRateLimit None st),
      [GetRateLimit])) /\
  (forall resp core,
     fetch_rate_limit remote = Normal resp ->
     json resp = Normal (Doc {| Resources.core := Some core |}) ->
     Core.remaining core = 0%Z ->
     errors (fst (fetchData remote st)) = {[ "global" := quota_message ]} /\
     snd (fetchData remote st) = [GetRateLimit]) /\
  (forall resp core,
     fetch_rate_limit remote = Normal resp ->
     json resp = Normal (Doc {| Resources.core := Some core |}) ->
     Core.remaining core ≠ 0%Z ->
     snd (fetchData remote st) =
       GetRateLimit :: flat_map (fun p => issued (account_outcome remote p)) (profiles st)).
Proof.
  split; [|split; [|split]].
  - intros message Hfail. unfold fetchData, check_rate_limit.
    destruct Hfail as [m Hf|resp m Hf Hj|resp Hf Hj];
      rewrite Hf; try rewrite Hj; reflexivity.
  - intros resp Hf Hj. unfold fetchData, check_rate_limit.
    rewrite Hf, Hj. reflexivity.
  - intros resp core Hf Hj Hz. unfold fetchData, check_rate_limit.
    rewrite Hf, Hj. cbn [Resources.core]. rewrite Hz. split; reflexivity.
  - intros resp core Hf Hj Hz. apply open_requests.
    unfold gate_open, check_rate_limit. rewrite Hf, Hj. cbn [Resources.core].
    by apply Z.eqb_neq in Hz as ->.
Qed.

(** ** Records *)

(** The records of a prefix whose commits requests settle come first. *)
Lemma scan_records_app remote p userData rs1 rest :
  (forall r', r' ∈ rs1 -> exists payload, commits_settle remote p r' payload) ->
  records (scan remote p userData (rs1 ++ rest)) =
  flat_map (repo_records remote p userData) rs1 ++ records (scan remote p userData rest).
Proof.
  intros Hall. induction rs1 as [|r1 rs1 IH]; [done|].
  destruct (Hall r1) as (payload & resp & Hf & Hj); [by left|].
  simpl. unfold repo_records at 1. rewrite Hf, Hj. cbn [records].
  rewrite IH; [by rewrite app_assoc|].
  intros r' Hr'. apply Hall. by right.
Qed.

(** The records of an account whose profile and repository list load. *)
Lemma account_records_scan remote p uresp userData rresp rs :
  fetch_user remote p = Normal uresp -> ok uresp = true ->
  json uresp = Normal userData ->
  fetch_repos remote p = Normal rresp -> json rresp = Normal (Doc rs) ->
  records (account_outcome remote p) = records (scan remote p userData rs).
Proof.
  intros Hu Hok Hud Hr Hrs. unfold account_outcome.
  rewrite Hu, Hok, Hud, Hr, Hrs. by destruct rs.
Qed.

(** C4. In a cycle that passes the gate: (1) every published record
    carries, as [repoCount], the [public_repos] of its account's profile
    and, as [lastUpdated], the greatest author date among the commits
    returned for its repository, of which there is at least one; (2) a
    repository of a tracked account whose commits request returns at
    least one commit has such a record, whatever the other repositories
    of the account return, provided the cycle gets to it: the profile
    and the repository list load and no commits request of an earlier
    repository throws. *)
Theorem record_repoCount_lastUpdated remote st :
  gate_open remote st = true ->
  (forall a, a ∈ activities (fst (fetchData remote st)) ->
     exists uresp userData resp cs m,
       fetch_user remote (Activity.profile a) = Normal uresp /\
       json uresp = Normal userData /\
       fetch_commits remote (Activity.profile a) (Activity.repo a) = Normal resp /\
       json resp = Normal (Doc cs) /\
       Activity.repoCount a = User.public_repos userData /\
       Activity.lastUpdated a = Some m /\
       m ∈ map Commit.date cs /\
       forall d, d ∈ map Commit.date cs -> (d <= m)%Z) /\
  (forall p uresp userData rresp rs1 r rs2 resp cs,
     p ∈ profiles st ->
     fetch_user remote p = Normal uresp -> ok uresp = true ->
     json uresp = Normal userData ->
     fetch_repos remote p = Normal rresp ->
     json rresp = Normal (Doc (rs1 ++ r :: rs2)) ->
     (forall r', r' ∈ rs1 -> exists payload, commits_settle remote p r' payload) ->
     fetch_commits remote p (Repo.name r) = Normal resp ->
     json resp = Normal (Doc cs) -> cs ≠ [] ->
     exists a m,
       a ∈ activities (fst (fetchData remote st)) /\
       Activity.profile a = p /\ Activity.repo a = Repo.name r /\
       Activity.repoCount a = User.public_repos userData /\
       Activity.lastUpdated a = Some m /\
       m ∈ map Commit.date cs /\
       forall d, d ∈ map Commit.date cs -> (d <= m)%Z).
Proof.
  intros Hopen. split.
  - intros a Ha.
    destruct (open_activity_built _ _ _ Hopen Ha) as [_ Hb].
    destruct Hb as [uresp userData rresp rs r resp cs Hu Hok Hud Hr Hrs Hin Hc Hj Hne].
    simpl in *.
    destruct (Math_max_spec (map Commit.date cs)) as (m & Hm & Hmin & Hmle).
    { by destruct cs. }
    exists uresp, userData, resp, cs, m. repeat split; done.
  - intros p uresp userData rresp rs1 r rs2 resp cs
      Hin Hu Hok Hud Hr Hrs Hall Hc Hj Hne.
    destruct (Math_max_spec (map Commit.date cs)) as (m & Hm & Hmin & Hmle).
    { by destruct cs. }
    exists (activity p userData r cs), m. repeat split; try done.
    rewrite (open_activities _ _ Hopen).
    apply list_elem_of_In, in_flat_map. exists p.
    split; [by apply list_elem_of_In|]. apply list_elem_of_In.
    rewrite (account_records_scan _ _ _ _ _ _ Hu Hok Hud Hr Hrs).
    rewrite (scan_records_app _ _ _ _ _ Hall).
    apply elem_of_app. right. simpl. rewrite Hc, Hj. cbn [records].
    apply elem_of_app. left. destruct cs; [done|]. by left.
Qed.

(** ** Account-level failures *)

Lemma lookup_fails_outcome remote p message :
  lookup_fails remote p message ->
  account_outcome remote p =
  {| records := []; failure := Some message; issued := [GetUser p] |}.
Proof.
  unfold account_outcome.
  intros [m Hf|resp Hf Hok|resp m Hf Hok Hj]; rewrite Hf; try rewrite Hok;
    try rewrite Hj; reflexivity.
Qed.

(** An account whose outcome has no record has no record in the cycle. *)
Lemma open_no_record remote st p :
  gate_open remote st = true ->
  records (account_outcome remote p) = [] ->
  forall a, a ∈ activities (fst (fetchData remote st)) -> Activity.profile a ≠ p.
Proof.
  intros Hopen Hnone a Ha Hp.
  rewrite (open_activities _ _ Hopen) in Ha.
  apply list_elem_of_In, in_flat_map in Ha as (q & Hq & Ha).
  apply list_elem_of_In in Ha.
  pose proof (built_profile _ _ _ (account_records_built _ _ _ Ha)) as Hq'.
  rewrite Hp in Hq'. subst q. rewrite Hnone in Ha. by apply elem_of_nil in Ha.
Qed.

(** When the profile lookup of a tracked account [p] fails with
    [message], the cycle leaves [message] under [p] in [errors], unless
    [p] is [__proto__], under which nothing is stored; it publishes no
    record of [p] and issues neither the repositories request nor any
    commits request for [p].  The other accounts are as in the cycle
    without [p]: the same records in the same order, the same error
    entries, and the same requests around the single profile request
    for [p]. *)
Theorem failed_lookup_is_isolated remote st p message :
  gate_open remote st = true ->
  p ∈ profiles st ->
  lookup_fails remote p message ->
  errors (fst (fetchData remote st)) !! p =
    (if decide (p = "__proto__") then None else Some message) /\
  (forall a, a ∈ activities (fst (fetchData remote st)) -> Activity.profile a ≠ p) /\
  (GetRepos p ∉ snd (fetchData remote st)) /\
  (forall r, GetCommits p r ∉ snd (fetchData remote st)) /\
  (forall before after,
     profiles st = before ++ p :: after ->
     activities (fst (fetchData remote st)) =
       activities (fst (fetchData remote (untrack before after st))) /\
     errors (fst (fetchData remote st)) =
       assign p message (errors (fst (fetchData remote (untrack before after st)))) /\
     snd (fetchData remote st) =
       GetRateLimit :: requests (for_profiles remote before empty_cycle)
         ++ [GetUser p] ++ requests (for_profiles remote after empty_cycle) /\
     snd (fetchData remote (untrack before after st)) =
       GetRateLimit :: requests (for_profiles remote before empty_cycle)
         ++ requests (for_profiles remote after empty_cycle)).
Proof.
  intros Hopen Hin Hfail.
  pose proof (lookup_fails_outcome _ _ _ Hfail) as Hout.
  assert (Hreq : forall req, request_profile req = Some p ->
            req ∈ snd (fetchData remote st) -> req = GetUser p).
  { intros req Hp Hreq.
    destruct (open_request_issued _ _ _ _ Hopen Hreq Hp) as [_ Hi].
    rewrite Hout in Hi. simpl in Hi. by apply list_elem_of_singleton in Hi. }
  split; [|split; [|split; [|split]]].
  - by rewrite (open_errors_at _ _ _ Hopen Hin), Hout.
  - apply open_no_record; [done|]. by rewrite Hout.
  - intros H. by apply Hreq in H.
  - intros r H. by apply Hreq in H.
  - intros before after Hps.
    assert (Hopen' : gate_open remote (untrack before after st) = true)
      by (by rewrite (gate_open_state remote _ st)).
    split; [|split; [|split]].
    + rewrite (open_activities _ _ Hopen), (open_activities _ _ Hopen'), Hps.
      simpl. rewrite !flat_map_app. simpl. by rewrite Hout.
    + apply map_eq. intros q. rewrite lookup_assign.
      rewrite (open_errors _ _ _ Hopen), (open_errors _ _ _ Hopen'), Hps. simpl.
      assert (Hmem : q ≠ p -> (q ∈ before ++ p :: after <-> q ∈ before ++ after)).
      { intros Hne. rewrite !elem_of_app, elem_of_cons. split.
        - intros [?|[?|?]]; [by left|done|by right].
        - intros [?|?]; [by left|right; by right]. }
      destruct (decide (q = p /\ p ≠ "__proto__")) as [[-> Hp]|Hno].
      * destruct (decide (p ∈ before ++ p :: after /\ p ≠ "__proto__")) as [_|H];
          [by rewrite Hout|].
        destruct H. split; [|done]. apply elem_of_app. right. by left.
      * destruct (decide (q = p)) as [->|Hne].
        -- assert (Hp : p = "__proto__").
           { destruct (decide (p = "__proto__")); [done|]. by destruct Hno. }
           destruct (decide (p ∈ before ++ p :: after /\ p ≠ "__proto__")) as [[_ ?]|_];
             [done|].
           by destruct (decide (p ∈ before ++ after /\ p ≠ "__proto__")) as [[_ ?]|_].
        -- specialize (Hmem Hne).
           destruct (decide (q ∈ before ++ p :: after /\ q ≠ "__proto__")) as [[H1 H2]|H];
             destruct (decide (q ∈ before ++ after /\ q ≠ "__proto__")) as [[H1' H2']|H'];
             try done.
           ++ destruct H'. split; [by apply Hmem|done].
           ++ destruct H. split; [by apply Hmem|done].
    + rewrite (open_requests _ _ Hopen), Hps, !for_profiles_requests.
      simpl. rewrite flat_map_app. simpl. by rewrite Hout.
    + rewrite (open_requests _ _ Hopen'), !for_profiles_requests.
      simpl. by rewrite flat_map_app.
Qed.

(** C5 fails for the account name [__proto__]: the form accepts it, its
    profile lookup is answered with a non-success status, and the cycle
    leaves no error entry at all, because the assignment of line 77
    stores nothing under that key. *)
Theorem proto_lookup_failure_leaves_no_entry :
  profiles (handleAddProfiles (form [] "__proto__")) = ["__proto__"] /\
  reachable (handleAddProfiles (form [] "__proto__")) /\
  lookup_fails (service 5 (resolved (Doc []))) "__proto__" "User __proto__ not found" /\
  errors (fst (fetchData (service 5 (resolved (Doc [])))
                 (handleAddProfiles (form [] "__proto__")))) = ∅ /\
  snd (fetchData (service 5 (resolved (Doc [])))
         (handleAddProfiles (form [] "__proto__"))) =
    [GetRateLimit; GetUser "__proto__"].
Proof.
  split; [reflexivity|]. split; [by apply reach_submit, reach_mount|].
  split; [|split; reflexivity].
  by apply (lookup_not_ok _ "__proto__"
              {| ok := false; json := Throw "Unexpected token" |}).
Qed.

(** ** Repositories without commits, accounts without repositories *)

Lemma scan_settled remote p userData rs :
  (forall r, r ∈ rs -> exists payload, commits_settle remote p r payload) ->
  scan remote p userData rs =
  {| records := flat_map (repo_records remote p userData) rs;
     failure := None;
     issued := map (commits_request p) rs |}.
Proof.
  induction rs as [|r rs IH]; intros Hall; [done|].
  destruct (Hall r) as (payload & resp & Hf & Hj); [by left|].
  simpl. unfold repo_records at 1. rewrite Hf, Hj, IH; [done|].
  intros r' Hr'. apply Hall. by right.
Qed.

Lemma scan_thrown remote p userData rs1 r rs2 message :
  (forall r', r' ∈ rs1 -> exists payload, commits_settle remote p r' payload) ->
  commits_throw remote p r message ->
  scan remote p userData (rs1 ++ r :: rs2) =
  {| records := flat_map (repo_records remote p userData) rs1;
     failure := Some message;
     issued := map (commits_request p) (rs1 ++ [r]) |}.
Proof.
  intros Hall Hthrow. induction rs1 as [|r1 rs1 IH].
  - simpl. destruct Hthrow as [Hf|(resp & Hf & Hj)]; rewrite Hf; [done|].
    by rewrite Hj.
  - destruct (Hall r1) as (payload & resp & Hf & Hj); [by left|].
    simpl. unfold repo_records at 1. rewrite Hf, Hj, IH; [done|].
    intros r' Hr'. apply Hall. by right.
Qed.

Lemma activity_commits_nonempty p userData r cs :
  cs ≠ [] -> Activity.commits (activity p userData r cs) ≠ [].
Proof. by destruct cs. Qed.

(** In a cycle that passes the gate: (1) every published record has
    commits, and the commits request of its repository did not return
    the empty list; (2) a tracked account with at least one repository,
    all of whose commits requests return the empty list, has no record
    and no entry in [errors]; (3) a tracked account whose repository
    list is empty has no record and the entry
    "No public repositories found for <account>", unless it is
    [__proto__], under which nothing is stored. *)
Theorem no_commits_no_record remote st :
  gate_open remote st = true ->
  (forall a, a ∈ activities (fst (fetchData remote st)) ->
     Activity.commits a ≠ [] /\
     forall resp, fetch_commits remote (Activity.profile a) (Activity.repo a)
                    = Normal resp -> json resp ≠ Normal (Doc [])) /\
  (forall p uresp userData rresp rs,
     p ∈ profiles st ->
     fetch_user remote p = Normal uresp -> ok uresp = true ->
     json uresp = Normal userData ->
     fetch_repos remote p = Normal rresp -> json rresp = Normal (Doc rs) ->
     rs ≠ [] ->
     (forall r, r ∈ rs -> commits_settle remote p r (Doc [])) ->
     errors (fst (fetchData remote st)) !! p = None /\
     forall a, a ∈ activities (fst (fetchData remote st)) -> Activity.profile a ≠ p) /\
  (forall p uresp userData rresp,
     p ∈ profiles st ->
     fetch_user remote p = Normal uresp -> ok uresp = true ->
     json uresp = Normal userData ->
     fetch_repos remote p = Normal rresp -> json rresp = Normal (Doc []) ->
     errors (fst (fetchData remote st)) !! p
       = (if decide (p = "__proto__") then None
          else Some ("No public repositories found for " +:+ p)) /\
     forall a, a ∈ activities (fst (fetchData remote st)) -> Activity.profile a ≠ p).
Proof.
  intros Hopen. split; [|split].
  - intros a Ha.
    destruct (open_activity_built _ _ _ Hopen Ha) as [_ Hb].
    destruct Hb as [uresp userData rresp rs r resp cs Hu Hok Hud Hr Hrs Hin Hc Hj Hne].
    split; [by apply activity_commits_nonempty|].
    simpl. intros resp' Hc' Hj'. rewrite Hc in Hc'. simplify_eq.
    rewrite Hj in Hj'. by simplify_eq.
  - intros p uresp userData rresp rs Hin Hu Hok Hud Hr Hrs Hne Hall.
    assert (Hout : account_outcome remote p =
              {| records := []; failure := None;
                 issued := GetUser p :: GetRepos p :: map (commits_request p) rs |}).
    { unfold account_outcome. rewrite Hu, Hok, Hud, Hr, Hrs.
      destruct rs as [|r0 rs0]; [done|].
      rewrite (scan_settled remote p userData (r0 :: rs0)) by eauto.
      cbn [records failure issued]. f_equal.
      assert (Hnone : forall l, (forall r, r ∈ l -> commits_settle remote p r (Doc [])) ->
                flat_map (repo_records remote p userData) l = []).
      { induction l as [|r l IH]; intros Hl; [done|].
        destruct (Hl r) as (resp & Hf & Hj); [by left|].
        simpl. unfold repo_records at 1. rewrite Hf, Hj. simpl.
        apply IH. intros r' Hr'. apply Hl. by right. }
      by apply Hnone. }
    split.
    + apply open_errors_none; [done|]. by rewrite Hout.
    + apply open_no_record; [done|]. by rewrite Hout.
  - intros p uresp userData rresp Hin Hu Hok Hud Hr Hrs.
    assert (Hout : account_outcome remote p =
              {| records := [];
                 failure := Some ("No public repositories found for " +:+ p);
                 issued := [GetUser p; GetRepos p] |}).
    { unfold account_outcome. by rewrite Hu, Hok, Hud, Hr, Hrs. }
    split.
    + by rewrite (open_errors_at _ _ _ Hopen Hin), Hout.
    + apply open_no_record; [done|]. by rewrite Hout.
Qed.

(** C6 fails for the account name [__proto__]: when the service knows
    the account and lists no repository for it, line 46 stores nothing,
    and the account has neither record nor error entry, while any other
    name gets the entry. *)
Theorem proto_without_repositories_leaves_no_entry :
  reachable (handleAddProfiles (form [] "__proto__, carol")) /\
  profiles (handleAddProfiles (form [] "__proto__, carol")) = ["__proto__"; "carol"] /\
  fetch_repos service_no_repositories "__proto__" = resolved (Doc []) /\
  errors (fst (fetchData service_no_repositories
                 (handleAddProfiles (form [] "__proto__, carol")))) =
    {[ "carol" := "No public repositories found for carol" ]} /\
  activities (fst (fetchData service_no_repositories
                     (handleAddProfiles (form [] "__proto__, carol")))) = [].
Proof.
  split; [by apply reach_submit, reach_mount|]. repeat split; reflexivity.
Qed.

(** ** A commits request that throws *)

(** The outcome of an account whose profile and repository list load
    and whose first throwing commits request is that of [r]. *)
Lemma commit_failure_outcome remote p uresp userData rresp rs1 r rs2 message :
  fetch_user remote p = Normal uresp -> ok uresp = true ->
  json uresp = Normal userData ->
  fetch_repos remote p = Normal rresp ->
  json rresp = Normal (Doc (rs1 ++ r :: rs2)) ->
  (forall r', r' ∈ rs1 -> exists payload, commits_settle remote p r' payload) ->
  commits_throw remote p r message ->
  account_outcome remote p =
  {| records := flat_map (repo_records remote p userData) rs1;
     failure := Some message;
     issued := GetUser p :: GetRepos p :: map (commits_request p) (rs1 ++ [r]) |}.
Proof.
  intros Hu Hok Hud Hr Hrs Hall Hthrow.
  unfold account_outcome. rewrite Hu, Hok, Hud, Hr, Hrs.
  rewrite (scan_thrown remote p userData rs1 r rs2 message Hall Hthrow).
  by destruct rs1.
Qed.

(** C1, as amended. When a commits request of a tracked account [p]
    throws at repository [r], after the requests of the earlier
    repositories [rs1] settled, the cycle leaves the message under [p] in
    [errors] (nothing when [p] is [__proto__], a key that line 77 cannot
    set), keeps the records already pushed for [rs1] where [p]'s
    records belong, and issues no request for the repositories after
    [r]. The accounts before and after [p] contribute what they
    contribute on their own. *)
Theorem commit_failure_keeps_earlier_records
    remote st before p after uresp userData rresp rs1 r rs2 message :
  gate_open remote st = true ->
  profiles st = before ++ p :: after ->
  fetch_user remote p = Normal uresp -> ok uresp = true ->
  json uresp = Normal userData ->
  fetch_repos remote p = Normal rresp ->
  json rresp = Normal (Doc (rs1 ++ r :: rs2)) ->
  (forall r', r' ∈ rs1 -> exists payload, commits_settle remote p r' payload) ->
  commits_throw remote p r message ->
  errors (fst (fetchData remote st)) !! p
    = (if decide (p = "__proto__") then None else Some message) /\
  activities (fst (fetchData remote st)) =
    newActivities (for_profiles remote before empty_cycle)
      ++ flat_map (repo_records remote p userData) rs1
      ++ newActivities (for_profiles remote after empty_cycle) /\
  snd (fetchData remote st) =
    GetRateLimit :: requests (for_profiles remote before empty_cycle)
      ++ (GetUser p :: GetRepos p :: map (commits_request p) (rs1 ++ [r]))
      ++ requests (for_profiles remote after empty_cycle).
Proof.
  intros Hopen Hps Hu Hok Hud Hr Hrs Hall Hthrow.
  pose proof (commit_failure_outcome _ _ _ _ _ _ _ _ _
                Hu Hok Hud Hr Hrs Hall Hthrow) as Hout.
  split; [|split].
  - rewrite (open_errors_at _ _ p Hopen), Hout; [done|].
    rewrite Hps. apply elem_of_app. right. by left.
  - rewrite (open_activities _ _ Hopen), Hps, !for_profiles_activities.
    simpl. rewrite flat_map_app. simpl. by rewrite Hout.
  - rewrite (open_requests _ _ Hopen), Hps, !for_profiles_requests.
    simpl. rewrite flat_map_app. simpl. by rewrite Hout.
Qed.

(** ** Order of the published records *)

(** C10. In a cycle that passes the gate the published records are the
    accounts' records, account after account in the order of [profiles];
    the records of an account carry its name and follow the order of its
    repository list; the commits of a record carry, one for one and in
    the order of the response, the messages, dates and links of the
    commits of the response. *)
Theorem records_in_discovery_order remote st :
  gate_open remote st = true ->
  activities (fst (fetchData remote st)) =
    flat_map (fun p => records (account_outcome remote p)) (profiles st) /\
  (forall p a, a ∈ records (account_outcome remote p) -> Activity.profile a = p) /\
  (forall p rresp rs,
     fetch_repos remote p = Normal rresp -> json rresp = Normal (Doc rs) ->
     sublist (map Activity.repo (records (account_outcome remote p)))
             (map Repo.name rs)) /\
  (forall a, a ∈ activities (fst (fetchData remote st)) ->
     exists resp cs,
       fetch_commits remote (Activity.profile a) (Activity.repo a) = Normal resp /\
       json resp = Normal (Doc cs) /\
       map CommitView.message (Activity.commits a) = map Commit.message cs /\
       map CommitView.date (Activity.commits a) = map Commit.date cs /\
       map CommitView.commitUrl (Activity.commits a) = map Commit.html_url cs).
Proof.
  intros Hopen. split; [by apply open_activities|]. split; [|split].
  - intros p a Ha. by eapply built_profile, account_records_built.
  - intros p rresp rs Hr Hrs. unfold account_outcome.
    destruct (fetch_user remote p) as [uresp|m]; [|apply sublist_nil_l].
    destruct (ok uresp); [|apply sublist_nil_l].
    destruct (json uresp) as [userData|m]; [|apply sublist_nil_l].
    rewrite Hr, Hrs. destruct rs as [|r0 rs0]; [constructor|].
    apply scan_records_sublist.
  - intros a Ha.
    destruct (open_activity_built _ _ _ Hopen Ha) as [_ Hb].
    destruct Hb as [uresp userData rresp rs r resp cs Hu Hok Hud Hr Hrs Hin Hc Hj Hne].
    exists resp, cs. cbn [Activity.commits activity].
    rewrite !map_map. by repeat split.
Qed.

(** ** Further properties of the cycle *)

(** Running the cycle again on the state it left, against the same
    answers of the service, changes nothing and issues the same
    requests. *)
Theorem fetchData_idempotent remote st :
  fetchData remote (fst (fetchData remote st)) = fetchData remote st.
Proof.
  unfold fetchData, check_rate_limit.
  destruct (fetch_rate_limit remote) as [resp|m]; [|done].
  destruct (json resp) as [[[[core|]]|]|m]; try done; cbn [Resources.core].
  by destruct (Core.remaining core =? 0)%Z.
Qed.

(** The cycle over [alice] and [bob] of [two_accounts] publishes one
    record, for [alice]'s [x], with its single commit and that commit's
    date as [lastUpdated], and the one error entry of [bob]. *)
Example alice_and_bob :
  let st' := fst (fetchData two_accounts (form ["alice"; "bob"] "")) in
  activities st' =
    [activity "alice" {| User.public_repos := 2 |} repo_x
       [commit_at 1727517600000 "first"]] /\
  map Activity.lastUpdated (activities st') = [Some 1727517600000%Z] /\
  errors st' = {[ "bob" := "User bob not found" ]}.
Proof. repeat split; reflexivity. Qed.

Lemma scan_with_status b remote p userData rs :
  scan (with_status b remote) p userData rs = scan remote p userData rs.
Proof.
  induction rs as [|r rs IH]; simpl; [done|].
  destruct (fetch_commits remote p (Repo.name r)) as [resp|m]; simpl; [|done].
  destruct (json resp); by rewrite ?IH.
Qed.

Lemma account_outcome_with_status b remote p :
  account_outcome (with_status b remote) p = account_outcome remote p.
Proof.
  unfold account_outcome. simpl.
  destruct (fetch_user remote p) as [uresp|m]; [|done].
  destruct (ok uresp); [|done].
  destruct (json uresp) as [userData|m]; [|done].
  destruct (fetch_repos remote p) as [rresp|m]; simpl; [|done].
  destruct (json rresp) as [[[|r rs]|]|m]; try done.
  by rewrite scan_with_status.
Qed.

Lemma for_profiles_with_status b remote ps c :
  for_profiles (with_status b remote) ps c = for_profiles remote ps c.
Proof.
  revert c. induction ps as [|p ps IH]; intros c; [done|].
  rewrite !for_profiles_cons, IH, !profile_body_outcome.
  by rewrite account_outcome_with_status.
Qed.

(** Only the profile lookup reads the status of its response (line 37):
    the cycle is the same whatever the [ok] flags of the rate-limit,
    repositories and commits responses are. *)
Theorem status_read_on_lookup_only b remote st :
  fetchData (with_status b remote) st = fetchData remote st.
Proof.
  unfold fetchData, check_rate_limit. simpl.
  destruct (fetch_rate_limit remote) as [resp|m]; simpl; [|done].
  destruct (json resp) as [[[[core|]]|]|m]; try done; cbn [Resources.core].
  destruct (Core.remaining core =? 0)%Z; [done|].
  by rewrite for_profiles_with_status.
Qed.

(** A commits response that is not an array, as comes with a
    non-success status, is passed over: when every commits request of a
    tracked account settles, the account has no error entry, every one
    of its repositories is asked for, and a repository with such a
    response has no record. *)
Theorem commit_error_document_is_skipped remote st p uresp userData rresp rs :
  gate_open remote st = true ->
  p ∈ profiles st ->
  fetch_user remote p = Normal uresp -> ok uresp = true ->
  json uresp = Normal userData ->
  fetch_repos remote p = Normal rresp -> json rresp = Normal (Doc rs) ->
  rs ≠ [] ->
  (forall r, r ∈ rs -> exists payload, commits_settle remote p r payload) ->
  errors (fst (fetchData remote st)) !! p = None /\
  (forall r, r ∈ rs -> commits_request p r ∈ snd (fetchData remote st)) /\
  (forall r a, r ∈ rs -> commits_settle remote p r ErrorDoc ->
     a ∈ activities (fst (fetchData remote st)) ->
     ~ (Activity.profile a = p /\ Activity.repo a = Repo.name r)).
Proof.
  intros Hopen Hin Hu Hok Hud Hr Hrs Hne Hall.
  assert (Hout : account_outcome remote p =
            {| records := flat_map (repo_records remote p userData) rs;
               failure := None;
               issued := GetUser p :: GetRepos p :: map (commits_request p) rs |}).
  { unfold account_outcome. rewrite Hu, Hok, Hud, Hr, Hrs.
    destruct rs as [|r0 rs0]; [done|].
    by rewrite (scan_settled remote p userData (r0 :: rs0)). }
  split; [|split].
  - apply open_errors_none; [done|]. by rewrite Hout.
  - intros r Hr'. rewrite (open_requests _ _ Hopen). right.
    apply list_elem_of_In, in_flat_map. exists p. split; [by apply list_elem_of_In|].
    rewrite Hout. simpl. right. right. apply list_elem_of_In.
    by apply list_elem_of_fmap_2.
  - intros r a Hr' (resp & Hf & Hj) Ha [Hp Hrepo].
    destruct (open_activity_built _ _ _ Hopen Ha) as [_ Hb].
    rewrite Hp in Hb.
    destruct Hb as [uresp' userData' rresp' rs' r' resp' cs Hu' Hok' Hud' Hr'' Hrs' Hin' Hc Hj' Hne'].
    simpl in Hrepo. rewrite Hrepo, Hf in Hc. simplify_eq.
    rewrite Hj in Hj'. done.
Qed.

(** * The tracked accounts *)

Lemma split_comma_parts s : Forall comma_free (split_comma s).
Proof.
  induction s as [|c s IH]; simpl; [by repeat constructor|].
  destruct (decide (c = comma)) as [->|Hc]; [by constructor|].
  destruct (split_comma s) as [|h t]; [by repeat constructor|].
  apply Forall_cons in IH as [Hh Ht]. by constructor.
Qed.

Lemma split_comma_free s : comma_free s -> split_comma s = [s].
Proof.
  induction s as [|c s IH]; simpl; [done|]. intros [Hc Hs].
  destruct (decide (c = comma)); [done|]. by rewrite IH.
Qed.

Lemma trimStart_comma_free s : comma_free s -> comma_free (trimStart s).
Proof.
  induction s as [|c s IH]; simpl; [done|]. intros [Hc Hs].
  destruct (is_white c); [auto|done].
Qed.

Lemma trimEnd_comma_free s : comma_free s -> comma_free (trimEnd s).
Proof.
  induction s as [|c s IH]; simpl; [done|]. intros [Hc Hs].
  specialize (IH Hs). destruct (trimEnd s); [by destruct (is_white c)|done].
Qed.

Lemma trimStart_black s : starts_black (trimStart s).
Proof.
  induction s as [|c s IH]; simpl; [done|].
  by destruct (is_white c) eqn:Hw.
Qed.

Lemma trimStart_id s : starts_black s -> trimStart s = s.
Proof. destruct s as [|c s]; simpl; [done|]. by intros ->. Qed.

Lemma trimEnd_black s : starts_black s -> starts_black (trimEnd s).
Proof.
  destruct s as [|c s]; simpl; [done|]. intros Hc.
  destruct (trimEnd s); [by rewrite Hc|done].
Qed.

Lemma trimEnd_idemp s : trimEnd (trimEnd s) = trimEnd s.
Proof.
  induction s as [|c s IH]; simpl; [done|].
  destruct (trimEnd s) as [|d t] eqn:Ht.
  - destruct (is_white c) eqn:Hw; simpl; [done|]. by rewrite Hw.
  - change (trimEnd (String c (String d t))) with
      (match trimEnd (String d t) with
       | EmptyString => if is_white c then EmptyString else String c EmptyString
       | u => String c u
       end).
    by rewrite IH.
Qed.

Lemma trim_idemp s : trim (trim s) = trim s.
Proof.
  unfold trim. rewrite (trimStart_id (trimEnd (trimStart s))).
  - apply trimEnd_idemp.
  - apply trimEnd_black, trimStart_black.
Qed.

(** A name the form has split off and trimmed reads back as itself. *)
Lemma submitted_again s p : p ∈ submitted s -> submitted p = [p].
Proof.
  unfold submitted. intros Hp.
  apply list_elem_of_fmap in Hp as (q & -> & Hq).
  assert (Hfree : comma_free (trim q)).
  { apply trimEnd_comma_free, trimStart_comma_free.
    pose proof (split_comma_parts s) as Hall.
    rewrite Forall_forall in Hall. by apply Hall. }
  rewrite (split_comma_free _ Hfree). simpl. by rewrite trim_idemp.
Qed.

Lemma fetchData_profiles remote st : profiles (fst (fetchData remote st)) = profiles st.
Proof.
  unfold fetchData, check_rate_limit.
  destruct (fetch_rate_limit remote) as [resp|m]; [|done].
  destruct (json resp) as [[[[core|]]|]|m]; try done; cbn [Resources.core].
  by destruct (Core.remaining core =? 0)%Z.
Qed.

Lemma handleAddProfiles_profiles st :
  profiles (handleAddProfiles st) =
  profiles st ++ List.filter (fresh (profiles st)) (submitted (newProfiles st)).
Proof.
  unfold handleAddProfiles.
  destruct (List.filter (fresh (profiles st)) (submitted (newProfiles st))) as [|p l];
    simpl; [by rewrite app_nil_r|done].
Qed.

(** Every tracked name is one the form split off and trimmed. *)
Lemma reachable_names st :
  reachable st -> Forall (fun p => submitted p = [p]) (profiles st).
Proof.
  induction 1 as [st H|st s _ IH|st tok _ IH|st _ IH|st remote _ IH]; try done.
  - rewrite H. constructor.
  - rewrite handleAddProfiles_profiles. apply Forall_app. split; [done|].
    apply Forall_forall. intros p Hp.
    apply list_elem_of_In, filter_In in Hp as [Hp _].
    apply list_elem_of_In in Hp. by eapply submitted_again.
  - by rewrite fetchData_profiles.
Qed.

(** A submission whose names are blank or already tracked is ignored. *)
Lemma handleAddProfiles_ignored st :
  Forall (fun p => p = "" \/ p ∈ profiles st) (submitted (newProfiles st)) ->
  handleAddProfiles st = st.
Proof.
  intros Hall. unfold handleAddProfiles.
  assert (Hnone : List.filter (fresh (profiles st)) (submitted (newProfiles st)) = []).
  { induction Hall as [|p l Hp _ IH]; simpl; [done|].
    unfold fresh at 1. destruct Hp as [->|Hp].
    - by rewrite bool_decide_eq_false_2 by auto.
    - rewrite (bool_decide_eq_false_2 (p ∉ profiles st)) by auto.
      by rewrite andb_false_r. }
  by rewrite Hnone.
Qed.

(** C8. In every state of the component, submitting the name of an
    account that is already tracked leaves the state as it is: the
    tracked list, with its order, and everything else. *)
Theorem add_tracked_account_is_noop st p :
  reachable st ->
  p ∈ profiles st ->
  handleAddProfiles (setNewProfiles p st) = setNewProfiles p st.
Proof.
  intros Hreach Hin. apply handleAddProfiles_ignored. simpl.
  pose proof (reachable_names _ Hreach) as Hnames.
  rewrite Forall_forall in Hnames. rewrite (Hnames p Hin).
  constructor; [by right|constructor].
Qed.

(** C7 fails on a submission that repeats a name: both copies pass the
    filter, which looks at the tracked list only, and both are
    appended. *)
Theorem repeated_name_is_tracked_twice :
  profiles (handleAddProfiles (form [] "a,a")) = ["a"; "a"] /\
  reachable (handleAddProfiles (form [] "a,a")) /\
  ~ NoDup (profiles (handleAddProfiles (form [] "a,a"))).
Proof.
  split; [reflexivity|]. split; [by apply reach_submit, reach_mount|].
  change (profiles (handleAddProfiles (form [] "a,a"))) with ["a"; "a"].
  intros H. apply NoDup_cons in H as [H _]. apply H. by left.
Qed.

Lemma filter_fresh_NoDup known l :
  NoDup (List.filter (fun p => bool_decide (p ≠ "")) l) ->
  NoDup (List.filter (fresh known) l).
Proof.
  induction l as [|p l IH]; simpl; [done|]. unfold fresh at 1.
  destruct (bool_decide (p ≠ "")) eqn:Hne; simpl; [|done].
  intros Hnd. apply NoDup_cons in Hnd as [Hp Hl].
  destruct (bool_decide (p ∉ known)); simpl; [|auto].
  apply NoDup_cons. split; [|auto].
  intros Hin. apply Hp.
  apply list_elem_of_In, filter_In in Hin as [Hin _].
  apply list_elem_of_In, filter_In. by split.
Qed.

(** A submission whose non-blank names are pairwise distinct keeps a
    duplicate-free tracked list duplicate-free. *)
Theorem distinct_submission_keeps_NoDup st :
  NoDup (profiles st) ->
  NoDup (List.filter (fun p => bool_decide (p ≠ "")) (submitted (newProfiles st))) ->
  NoDup (profiles (handleAddProfiles st)).
Proof.
  intros Hps Hnew. rewrite handleAddProfiles_profiles.
  apply NoDup_app. split; [done|]. split; [|by apply filter_fresh_NoDup].
  intros p Hp Hin.
  apply list_elem_of_In, filter_In in Hin as [_ Hfresh].
  unfold fresh in Hfresh. apply andb_true_iff in Hfresh as [_ Hnotin].
  by apply bool_decide_eq_true in Hnotin.
Qed.

(** * Scheduling *)

Lemma run_cleanup_timers i : scheduled i -> timers (run_cleanup i) = ∅.
Proof.
  unfold scheduled, run_cleanup.
  destruct (cleanup i) as [interval|]; [|by intros [? _]].
  intros (t & ps & tok & Ht & _). simpl. rewrite Ht. apply delete_singleton_eq.
Qed.

Lemma run_cleanup_rest i :
  clock (run_cleanup i) = clock (runtime i) /\
  next_id (run_cleanup i) = next_id (runtime i) /\
  started (run_cleanup i) = started (runtime i).
Proof. unfold run_cleanup. by destruct (cleanup i). Qed.

Lemma length_positive {A} (l : list A) : l ≠ [] -> (0 <? length l)%nat = true.
Proof. by destruct l. Qed.

Lemma scheduled_step i e : scheduled i -> scheduled (step i e).
Proof.
  intros Hi. destruct e as [ps tok| |ms|id]; simpl.
  - destruct (mounted i) eqn:Hm; simpl; [|done].
    destruct (decide (deps i = Some (ps, tok))) as [_|_]; [done|].
    unfold effect. destruct ps as [|p ps]; simpl.
    + unfold scheduled. simpl. split; [by apply run_cleanup_timers|]. eauto.
    + unfold scheduled. simpl.
      eexists _, (p :: ps), tok. rewrite (run_cleanup_timers i Hi).
      repeat split; try done.
  - unfold scheduled. simpl. split; [by apply run_cleanup_timers|done].
  - exact Hi.
  - unfold scheduled in *. simpl. unfold fire.
    destruct (cleanup i) as [interval|].
    + destruct Hi as (t & ps & tok & Ht & Hd & Hm & Hdeps & Hps & Hcb).
      rewrite Ht. destruct (decide (id = interval)) as [->|Hne].
      * rewrite lookup_singleton_eq.
        destruct (due t <=? clock (runtime i))%Z; simpl.
        -- eexists _, ps, tok. rewrite Ht, insert_singleton_eq.
           repeat split; done.
        -- exists t, ps, tok. by rewrite Ht.
      * rewrite lookup_singleton_ne by done. exists t, ps, tok. by rewrite Ht.
    + destruct Hi as [Ht Hd]. by rewrite Ht, lookup_empty.
Qed.

Lemma scheduled_run es i : scheduled i -> scheduled (run es i).
Proof.
  revert i. induction es as [|e es IH]; intros i Hi; [done|].
  apply IH. by apply scheduled_step.
Qed.

Lemma scheduled_boot : scheduled boot.
Proof. unfold scheduled. simpl. split; [done|]. by left. Qed.

(** With no timer armed, time passing starts no cycle. *)
Lemma passive_run es i :
  timers (runtime i) = ∅ -> Forall passive es ->
  started (runtime (run es i)) = started (runtime i).
Proof.
  revert i. induction es as [|e es IH]; intros i Ht Hall; [done|].
  apply Forall_cons in Hall as [He Hes].
  destruct e as [ps tok| |ms|id]; try done.
  - simpl. rewrite IH; done.
  - simpl. rewrite IH; try done; simpl; unfold fire; by rewrite Ht, lookup_empty.
Qed.

(** C9. After any history of the component: (1) a render with changed
    dependencies and a non-empty [profiles] starts one cycle at once and
    leaves exactly one timer armed, with a delay of 100 seconds, first
    due 100 seconds later; (2) when an armed timer fires, a cycle starts
    and the timer is due again one delay later; (3) after an unmount,
    or a render with an empty [profiles], no timer is armed, and no
    cycle starts however much time passes. *)
Theorem effect_starts_and_stops_polling (es : list Event) :
  (forall ps tok,
     ps ≠ [] -> mounted (run es boot) = true ->
     deps (run es boot) ≠ Some (ps, tok) ->
     started (runtime (step (run es boot) (Render ps tok))) =
       started (runtime (run es boot))
         ++ [(clock (runtime (run es boot)),
              {| closed_profiles := ps; closed_headers := headers tok |})] /\
     timers (runtime (step (run es boot) (Render ps tok))) =
       {[ next_id (runtime (run es boot)) :=
            {| callback := {| closed_profiles := ps; closed_headers := headers tok |};
               delay := 100 * 1000;
               due := clock (runtime (run es boot)) + 100 * 1000 |} ]}) /\
  (forall id t,
     timers (runtime (run es boot)) !! id = Some t ->
     (due t <= clock (runtime (run es boot)))%Z ->
     delay t = 100000%Z /\
     started (runtime (step (run es boot) (Fire id))) =
       started (runtime (run es boot))
         ++ [(clock (runtime (run es boot)), callback t)] /\
     timers (runtime (step (run es boot) (Fire id))) =
       {[ id := {| callback := callback t; delay := delay t;
                   due := due t + 100000 |} ]}) /\
  (forall e,
     e = Unmount \/ (exists tok, e = Render [] tok) ->
     timers (runtime (step (run es boot) e)) = ∅ /\
     forall es', Forall passive es' ->
       started (runtime (run es' (step (run es boot) e))) =
       started (runtime (step (run es boot) e))).
Proof.
  pose proof (scheduled_run es boot scheduled_boot) as Hi.
  set (i := run es boot) in *.
  split; [|split].
  - intros ps tok Hps Hm Hdeps. simpl. rewrite Hm. simpl.
    destruct (decide (deps i = Some (ps, tok))) as [H|_]; [done|].
    unfold effect. rewrite (length_positive ps Hps). simpl.
    destruct (run_cleanup_rest i) as (-> & -> & ->).
    by rewrite (run_cleanup_timers i Hi).
  - intros id t Hid Hdue. simpl. unfold fire. rewrite Hid.
    assert (Hle : (due t <=? clock (runtime i))%Z = true) by lia.
    rewrite Hle. simpl.
    unfold scheduled in Hi. destruct (cleanup i) as [interval|].
    + destruct Hi as (t' & ps & tok & Ht & Hd & _).
      rewrite Ht in Hid. apply lookup_singleton_Some in Hid as [<- <-].
      rewrite Ht, insert_singleton_eq, Hd. done.
    + destruct Hi as [Ht _]. by rewrite Ht, lookup_empty in Hid.
  - intros e He.
    assert (Ht : timers (runtime (step i e)) = ∅).
    { destruct He as [->|[tok ->]]; simpl; [by apply run_cleanup_timers|].
      destruct (mounted i) eqn:Hm; simpl.
      - destruct (decide (deps i = Some ([], tok))) as [Hd|_].
        + unfold scheduled in Hi. destruct (cleanup i) as [interval|].
          * destruct Hi as (t & ps & tok' & _ & _ & _ & Hd' & Hps & _).
            rewrite Hd in Hd'. by simplify_eq.
          * by destruct Hi.
        + simpl. by apply run_cleanup_timers.
      - unfold scheduled in Hi. destruct (cleanup i) as [interval|].
        + destruct Hi as (t & ps & tok' & _ & _ & Hm' & _). congruence.
        + by destruct Hi. }
    split; [done|]. intros es' Hes'. by apply passive_run.
Qed.

(** A history: mount on [alice], three periods pass, unmount, and a
    long wait. Cycles start at 0 s, 100 s and 200 s only. *)
Example polling_history :
  map fst (started (runtime (run
    [Render ["alice"] ""; Elapse 100000; Fire 0; Elapse 50000; Fire 0;
     Elapse 50000; Fire 0; Unmount; Elapse 1000000; Fire 0] boot))) =
  [0; 100000; 200000]%Z.
Proof. reflexivity. Qed.

(** * More on the form *)

Lemma submitted_clean s p : p ∈ submitted s -> p ≠ "" -> clean p.
Proof.
  intros Hp Hne. split; [done|].
  unfold submitted in Hp. apply list_elem_of_fmap in Hp as (q & -> & Hq).
  split; [|apply trim_idemp].
  apply trimEnd_comma_free, trimStart_comma_free.
  pose proof (split_comma_parts s) as Hall.
  rewrite Forall_forall in Hall. by apply Hall.
Qed.

Lemma fresh_true known p : fresh known p = true <-> p ≠ "" /\ p ∉ known.
Proof.
  unfold fresh. rewrite andb_true_iff, !bool_decide_eq_true. done.
Qed.

Lemma fresh_names_clean st :
  Forall (fun p => p ∈ submitted (newProfiles st) /\ clean p /\ p ∉ profiles st)
         (List.filter (fresh (profiles st)) (submitted (newProfiles st))).
Proof.
  apply Forall_forall. intros p Hp.
  apply list_elem_of_In, filter_In in Hp as [Hin Hf].
  apply list_elem_of_In in Hin. apply fresh_true in Hf as [Hne Hnot].
  split; [done|]. split; [by eapply submitted_clean|done].
Qed.

(** An add only appends: the tracked accounts stay where they are, and
    every appended name was submitted, is clean and was not tracked.
    The records, the errors, the token and the rate-limit status are
    not touched. *)
Theorem add_only_appends_clean_names st :
  exists added,
    profiles (handleAddProfiles st) = profiles st ++ added /\
    Forall (fun p => p ∈ submitted (newProfiles st) /\ clean p /\ p ∉ profiles st) added /\
    activities (handleAddProfiles st) = activities st /\
    errors (handleAddProfiles st) = errors st /\
    token (handleAddProfiles st) = token st /\
    rateLimit (handleAddProfiles st) = rateLimit st.
Proof.
  exists (List.filter (fresh (profiles st)) (submitted (newProfiles st))).
  split; [apply handleAddProfiles_profiles|]. split.
  - apply fresh_names_clean.
  - unfold handleAddProfiles.
    by destruct (0 <? length _)%nat.
Qed.

(** The account field is cleared exactly when the submission added
    something, which is when it names a non-empty, untracked account;
    otherwise the whole state, the typed text included, stays. *)
Theorem field_cleared_iff_added st :
  (profiles (handleAddProfiles st) ≠ profiles st <->
     exists p, p ∈ submitted (newProfiles st) /\ p ≠ "" /\ p ∉ profiles st) /\
  (profiles (handleAddProfiles st) ≠ profiles st ->
     newProfiles (handleAddProfiles st) = "") /\
  (profiles (handleAddProfiles st) = profiles st -> handleAddProfiles st = st).
Proof.
  unfold handleAddProfiles.
  destruct (List.filter (fresh (profiles st)) (submitted (newProfiles st)))
    as [|q l] eqn:Hf; simpl.
  - split; [|done]. split; [done|].
    intros (p & Hin & Hne & Hnot).
    assert (Hp : In p (List.filter (fresh (profiles st)) (submitted (newProfiles st)))).
    { apply filter_In. split; [by apply list_elem_of_In|]. by apply fresh_true. }
    by rewrite Hf in Hp.
  - assert (Hgrow : profiles st ++ q :: l ≠ profiles st).
    { intros H. apply (f_equal length) in H. rewrite length_app in H. simpl in H. lia. }
    split; [|done]. split; [|done]. intros _.
    assert (Hq : In q (List.filter (fresh (profiles st)) (submitted (newProfiles st))))
      by (rewrite Hf; by left).
    apply filter_In in Hq as [Hin Hfresh]. apply fresh_true in Hfresh as [? ?].
    exists q. by rewrite list_elem_of_In.
Qed.

(** Submitting the same text a second time adds nothing, whatever the
    text and the tracked list: after the first add every name of the
    text is blank or tracked. *)
Theorem resubmission_adds_nothing st s :
  handleAddProfiles (setNewProfiles s (handleAddProfiles (setNewProfiles s st))) =
  setNewProfiles s (handleAddProfiles (setNewProfiles s st)).
Proof.
  apply handleAddProfiles_ignored. simpl.
  rewrite handleAddProfiles_profiles. simpl.
  apply Forall_forall. intros p Hp.
  destruct (decide (p = "")) as [->|Hne]; [by left|]. right.
  destruct (decide (p ∈ profiles st)) as [Hin|Hnot].
  - apply elem_of_app. by left.
  - apply elem_of_app. right. apply list_elem_of_In, filter_In.
    split; [by apply list_elem_of_In|]. by apply fresh_true.
Qed.

Lemma trimStart_all_white s : all_white s -> trimStart s = "".
Proof.
  induction s as [|c s IH]; simpl; [done|]. intros [-> Hs]. auto.
Qed.

Lemma split_comma_blank s : blank s -> Forall all_white (split_comma s).
Proof.
  induction s as [|c s IH]; simpl; [by repeat constructor|].
  intros [Hc Hs]. specialize (IH Hs).
  destruct (decide (c = comma)) as [->|Hne]; [by constructor|].
  destruct Hc as [Hc|Hc]; [|done].
  destruct (split_comma s) as [|h t]; [by repeat constructor|].
  apply Forall_cons in IH as [Hh Ht]. by constructor.
Qed.

(** A submission of nothing but white space and commas, the empty one
    included, changes nothing: no account is added and the text stays
    in the field. *)
Theorem blank_submission_is_ignored st :
  blank (newProfiles st) -> handleAddProfiles st = st.
Proof.
  intros Hb. apply handleAddProfiles_ignored.
  unfold submitted. apply Forall_fmap.
  eapply Forall_impl; [by apply split_comma_blank|].
  intros q Hq. left. simpl. unfold trim. by rewrite trimStart_all_white.
Qed.

(** In every state of the component the tracked names are clean: none
    is empty, none holds a comma, none starts or ends with white
    space. *)
Theorem tracked_names_are_clean st :
  reachable st -> Forall clean (profiles st).
Proof.
  induction 1 as [st H|st s _ IH|st tok _ IH|st _ IH|st remote _ IH]; try done.
  - rewrite H. constructor.
  - rewrite handleAddProfiles_profiles. apply Forall_app. split; [done|].
    eapply Forall_impl; [apply fresh_names_clean|]. by intros p (_ & Hp & _).
  - by rewrite fetchData_profiles.
Qed.

(** * More on the cycle *)

Lemma gate_open_setProfiles remote f st :
  gate_open remote (setProfiles f st) = gate_open remote st.
Proof. apply gate_open_state. Qed.

(** The cycle over a list [ps1 ++ ps2] is the cycle over [ps1] followed
    by the cycle over [ps2]: the records and the account requests are
    concatenated and the error entries are joined, those of [ps2] on
    top. *)
Theorem cycle_is_compositional remote st ps1 ps2 :
  gate_open remote st = true ->
  profiles st = ps1 ++ ps2 ->
  activities (fst (fetchData remote st)) =
    activities (fst (cycle_over remote ps1 st))
      ++ activities (fst (cycle_over remote ps2 st)) /\
  errors (fst (fetchData remote st)) =
    errors (fst (cycle_over remote ps2 st)) ∪ errors (fst (cycle_over remote ps1 st)) /\
  snd (fetchData remote st) =
    snd (cycle_over remote ps1 st) ++ drop 1 (snd (cycle_over remote ps2 st)).
Proof.
  intros Hopen Hps. unfold cycle_over.
  assert (H1 : gate_open remote (setProfiles (fun _ => ps1) st) = true)
    by (by rewrite gate_open_setProfiles).
  assert (H2 : gate_open remote (setProfiles (fun _ => ps2) st) = true)
    by (by rewrite gate_open_setProfiles).
  split; [|split].
  - rewrite (open_activities _ _ Hopen), (open_activities _ _ H1),
      (open_activities _ _ H2), Hps. simpl. apply flat_map_app.
  - apply map_eq. intros q. rewrite lookup_union.
    rewrite (open_errors _ _ _ Hopen), (open_errors _ _ _ H1),
      (open_errors _ _ _ H2), Hps. simpl.
    repeat case_decide;
      try (by destruct (failure (account_outcome remote q)));
      exfalso; rewrite elem_of_app in *; tauto.
  - rewrite (open_requests _ _ Hopen), (open_requests _ _ H1),
      (open_requests _ _ H2), Hps. simpl. by rewrite flat_map_app.
Qed.

Lemma scan_issued_length remote p userData rs :
  (length (issued (scan remote p userData rs)) <= length rs)%nat.
Proof.
  induction rs as [|r rs IH]; simpl; [done|].
  destruct (fetch_commits remote p (Repo.name r)) as [resp|m]; simpl; [|lia].
  destruct (json resp); simpl; lia.
Qed.

Lemma flat_map_length_le {A B} (f : A -> list B) (l : list A) (k : nat) :
  (forall x, length (f x) <= k)%nat ->
  (length (flat_map f l) <= length l * k)%nat.
Proof.
  intros Hf. induction l as [|x l IH]; simpl; [done|].
  rewrite length_app. specialize (Hf x). lia.
Qed.

(** A cycle issues at most one request for the rate limit and, for each
    entry of the tracked list, two requests and one per repository of
    the entry's listing: with listings of at most [n] repositories, at
    most [1 + length profiles * (2 + n)] requests. A cycle stopped at
    the gate issues one request, that for the rate limit. *)
Theorem cycle_request_budget remote st n :
  (forall p rresp rs,
     fetch_repos remote p = Normal rresp -> json rresp = Normal (Doc rs) ->
     (length rs <= n)%nat) ->
  (length (snd (fetchData remote st)) <= 1 + length (profiles st) * (2 + n))%nat /\
  (gate_open remote st = false -> snd (fetchData remote st) = [GetRateLimit]).
Proof.
  intros Hn. split; [|by intros Hclosed; rewrite (fetchData_closed _ _ Hclosed)].
  destruct (gate_open remote st) eqn:Hopen.
  - rewrite (open_requests _ _ Hopen). simpl. apply le_n_S.
    apply flat_map_length_le. intros p. unfold account_outcome.
    destruct (fetch_user remote p) as [uresp|m]; simpl; [|lia].
    destruct (ok uresp); simpl; [|lia].
    destruct (json uresp) as [userData|m]; simpl; [|lia].
    destruct (fetch_repos remote p) as [rresp|m] eqn:Hr; simpl; [|lia].
    destruct (json rresp) as [[[|r rs]|]|m] eqn:Hrs; try (simpl; lia).
    pose proof (Hn p rresp (r :: rs) Hr Hrs) as Hlen.
    pose proof (scan_issued_length remote p userData (r :: rs)) as Hscan.
    cbn [issued length]. lia.
  - rewrite (fetchData_closed _ _ Hopen). simpl. lia.
Qed.

(** Every cycle starts with the rate-limit request and issues it once;
    all its other requests are about tracked accounts. *)
Theorem rate_limit_request_first_and_once remote st :
  exists rest,
    snd (fetchData remote st) = GetRateLimit :: rest /\
    (GetRateLimit ∉ rest) /\
    forall req, req ∈ rest ->
      exists p, request_profile req = Some p /\ p ∈ profiles st.
Proof.
  destruct (gate_open remote st) eqn:Hopen.
  - exists (flat_map (fun p => issued (account_outcome remote p)) (profiles st)).
    split; [by apply open_requests|].
    assert (Hall : forall req,
              req ∈ flat_map (fun p => issued (account_outcome remote p)) (profiles st) ->
              exists p, request_profile req = Some p /\ p ∈ profiles st).
    { intros req Hreq.
      apply list_elem_of_In, in_flat_map in Hreq as (p & Hp & Hreq).
      apply list_elem_of_In in Hp, Hreq.
      exists p. split; [by eapply account_issued_profile|done]. }
    split; [|done]. intros Hin. by destruct (Hall _ Hin) as (p & Hp & _).
  - exists []. rewrite (fetchData_closed _ _ Hopen). simpl.
    split; [done|]. split; [by intros H; apply elem_of_nil in H|].
    by intros req H; apply elem_of_nil in H.
Qed.

Lemma scan_no_failure remote p userData rs :
  failure (scan remote p userData rs) = None ->
  forall r, r ∈ rs -> exists payload, commits_settle remote p r payload.
Proof.
  induction rs as [|r0 rs IH]; simpl; [by intros _ r H; apply elem_of_nil in H|].
  destruct (fetch_commits remote p (Repo.name r0)) as [resp|m] eqn:Hf; [|done].
  destruct (json resp) as [payload|m] eqn:Hj; [|done].
  simpl. intros Hnone r Hr. apply elem_of_cons in Hr as [->|Hr]; [|auto].
  exists payload, resp. done.
Qed.

(** A tracked account other than [__proto__] without an entry in
    [errors], after a cycle that passed the gate, was covered in full:
    its profile and its repository list loaded, the list was not empty,
    and the commits of every repository of the list were requested and
    parsed. *)
Theorem no_error_means_full_coverage remote st p :
  gate_open remote st = true ->
  p ∈ profiles st ->
  p ≠ "__proto__" ->
  errors (fst (fetchData remote st)) !! p = None ->
  exists uresp userData rresp rs,
    fetch_user remote p = Normal uresp /\ ok uresp = true /\
    json uresp = Normal userData /\
    fetch_repos remote p = Normal rresp /\ json rresp = Normal (Doc rs) /\
    rs ≠ [] /\
    (forall r, r ∈ rs -> exists payload, commits_settle remote p r payload) /\
    (forall r, r ∈ rs -> commits_request p r ∈ snd (fetchData remote st)).
Proof.
  intros Hopen Hin Hproto Hnone.
  rewrite (open_errors_tracked _ _ _ Hopen Hin Hproto) in Hnone.
  assert (Hout := eq_refl (account_outcome remote p)).
  unfold account_outcome at 2 in Hout. unfold account_outcome in Hnone.
  destruct (fetch_user remote p) as [uresp|m] eqn:Hu; [|done].
  destruct (ok uresp) eqn:Hok; [|done].
  destruct (json uresp) as [userData|m] eqn:Hud; [|done].
  destruct (fetch_repos remote p) as [rresp|m] eqn:Hr; [|done].
  destruct (json rresp) as [[[|r0 rs]|]|m] eqn:Hrs; try done.
  cbn [failure] in Hnone.
  pose proof (scan_no_failure _ _ _ _ Hnone) as Hall.
  exists uresp, userData, rresp, (r0 :: rs). repeat split; try done.
  intros r Hr'. rewrite (open_requests _ _ Hopen). right.
  apply list_elem_of_In, in_flat_map. exists p.
  split; [by apply list_elem_of_In|]. rewrite Hout.
  rewrite (scan_settled remote p userData (r0 :: rs) Hall).
  cbn [issued]. right. right. apply list_elem_of_In.
  by apply list_elem_of_fmap_2.
Qed.

(** A cycle that passes the gate replaces the published records and
    errors wholesale: they are the same from any state with the same
    tracked list, whatever was published before, and they mention
    tracked accounts only. *)
Theorem snapshot_replaced_wholesale remote st st2 :
  gate_open remote st = true ->
  profiles st2 = profiles st ->
  activities (fst (fetchData remote st2)) = activities (fst (fetchData remote st)) /\
  errors (fst (fetchData remote st2)) = errors (fst (fetchData remote st)) /\
  (forall k, is_Some (errors (fst (fetchData remote st)) !! k) -> k ∈ profiles st) /\
  (forall a, a ∈ activities (fst (fetchData remote st)) ->
     Activity.profile a ∈ profiles st).
Proof.
  intros Hopen Hps.
  assert (Hopen2 : gate_open remote st2 = true)
    by (by rewrite (gate_open_state remote st2 st)).
  split; [|split; [|split]].
  - by rewrite (open_activities _ _ Hopen), (open_activities _ _ Hopen2), Hps.
  - apply map_eq. intros q.
    by rewrite (open_errors _ _ _ Hopen), (open_errors _ _ _ Hopen2), Hps.
  - intros k Hk. rewrite (open_errors _ _ _ Hopen) in Hk.
    destruct (decide (k ∈ profiles st /\ k ≠ "__proto__")) as [[? _]|_]; [done|].
    by destruct Hk.
  - intros a Ha. by destruct (open_activity_built _ _ _ Hopen Ha).
Qed.

(** What a cycle leaves alone: it never changes the tracked list, the
    text of the account field or the token, and a cycle stopped at the
    gate leaves the records as they were. The rate-limit status is
    replaced exactly when the body of the rate-limit response has
    [resources], by their [core], also when there is none and the status
    shown goes away (line 23 runs before line 25 throws); a check that
    throws earlier leaves the status of the last check in place. *)
Theorem cycle_leaves_form_and_status remote st :
  profiles (fst (fetchData remote st)) = profiles st /\
  newProfiles (fst (fetchData remote st)) = newProfiles st /\
  token (fst (fetchData remote st)) = token st /\
  (gate_open remote st = false ->
     activities (fst (fetchData remote st)) = activities st) /\
  (forall message, rate_limit_fails remote message ->
     rateLimit (fst (fetchData remote st)) = rateLimit st) /\
  (forall resp resources,
     fetch_rate_limit remote = Normal resp -> json resp = Normal (Doc resources) ->
     rateLimit (fst (fetchData remote st)) = Resources.core resources).
Proof.
  unfold gate_open, fetchData, check_rate_limit.
  destruct (fetch_rate_limit remote) as [resp|m] eqn:Hf.
  - destruct (json resp) as [[[[core|]]|]|m] eqn:Hj; cbn [Resources.core].
    + destruct (Core.remaining core =? 0)%Z; simpl; repeat split; try done;
        try (intros message [m' H|resp' m' H H'|resp' H H']; rewrite Hf in H;
             simplify_eq; rewrite Hj in H'; done);
        intros resp' resources H H'; simplify_eq; rewrite Hj in H'; by simplify_eq.
    + simpl. repeat split; try done;
        try (intros message [m' H|resp' m' H H'|resp' H H']; rewrite Hf in H;
             simplify_eq; rewrite Hj in H'; done);
        intros resp' resources H H'; simplify_eq; rewrite Hj in H'; by simplify_eq.
    + simpl. repeat split; try done.
      intros resp' resources H H'; simplify_eq; rewrite Hj in H'; done.
    + simpl. repeat split; try done.
      intros resp' resources H H'; simplify_eq; rewrite Hj in H'; done.
  - simpl. repeat split; done.
Qed.

Lemma short_outcome remote st p message reqs :
  gate_open remote st = true ->
  p ∈ profiles st ->
  account_outcome remote p =
    {| records := []; failure := Some message; issued := reqs |} ->
  errors (fst (fetchData remote st)) !! p
    = (if decide (p = "__proto__") then None else Some message) /\
  (forall a, a ∈ activities (fst (fetchData remote st)) -> Activity.profile a ≠ p) /\
  (forall req, req ∈ snd (fetchData remote st) -> request_profile req = Some p ->
     req ∈ reqs).
Proof.
  intros Hopen Hin Hout. split; [|split].
  - by rewrite (open_errors_at _ _ _ Hopen Hin), Hout.
  - apply open_no_record; [done|]. by rewrite Hout.
  - intros req Hreq Hp.
    destruct (open_request_issued _ _ _ _ Hopen Hreq Hp) as [_ Hi].
    by rewrite Hout in Hi.
Qed.

(** A repository list that parses but is not an array, as comes with a
    non-success status, fails the account at [for ... of]: the account
    gets the message of the engine's TypeError as its error entry
    (nothing when it is [__proto__]) and no record, and no commits
    request is issued for it. *)
Theorem repos_error_document_fails_account remote st p uresp userData rresp :
  gate_open remote st = true ->
  p ∈ profiles st ->
  fetch_user remote p = Normal uresp -> ok uresp = true ->
  json uresp = Normal userData ->
  fetch_repos remote p = Normal rresp -> json rresp = Normal ErrorDoc ->
  errors (fst (fetchData remote st)) !! p
    = (if decide (p = "__proto__") then None else Some not_iterable) /\
  (forall a, a ∈ activities (fst (fetchData remote st)) -> Activity.profile a ≠ p) /\
  (forall r, GetCommits p r ∉ snd (fetchData remote st)).
Proof.
  intros Hopen Hin Hu Hok Hud Hr Hrs.
  destruct (short_outcome remote st p not_iterable [GetUser p; GetRepos p] Hopen Hin)
    as (He & Ha & Hreq).
  { unfold account_outcome. by rewrite Hu, Hok, Hud, Hr, Hrs. }
  split; [done|]. split; [done|].
  intros r H. apply Hreq in H; [|done].
  apply elem_of_cons in H as [H|H]; [done|].
  by apply list_elem_of_singleton in H.
Qed.

(** No cycle leaves an entry under [__proto__] in [errors], whatever
    the service answers and whether [__proto__] is tracked or not: an
    account of that name never shows an error. *)
Theorem no_entry_under_proto remote st :
  errors (fst (fetchData remote st)) !! "__proto__" = None.
Proof.
  destruct (gate_open remote st) eqn:Hopen.
  - rewrite (open_errors _ _ _ Hopen).
    destruct (decide ("__proto__" ∈ profiles st /\ "__proto__" ≠ "__proto__"))
      as [[_ H]|_]; done.
  - revert Hopen. unfold gate_open, fetchData, check_rate_limit.
    destruct (fetch_rate_limit remote) as [resp|m]; [|done].
    destruct (json resp) as [[[[core|]]|]|m]; try done; cbn [Resources.core].
    by destruct (Core.remaining core =? 0)%Z.
Qed.

Lemma Math_max_cons x l :
  Math_max (x :: l) =
  Some (match Math_max l with Some m => Z.max x m | None => x end).
Proof. reflexivity. Qed.

Lemma Math_max_Permutation l l' : l ≡ₚ l' -> Math_max l = Math_max l'.
Proof.
  induction 1 as [|x l l' _ IH|x y l|l l' l'' _ IH1 _ IH2].
  - done.
  - by rewrite !Math_max_cons, IH.
  - rewrite !Math_max_cons. destruct (Math_max l); f_equal; lia.
  - by rewrite IH1.
Qed.

(** [lastUpdated] does not depend on the order in which the commits of
    a repository come back: responses that hold the same commits give
    the same value. *)
Theorem lastUpdated_order_independent p userData r cs cs' :
  cs ≡ₚ cs' ->
  Activity.lastUpdated (activity p userData r cs) =
  Activity.lastUpdated (activity p userData r cs').
Proof.
  intros Hperm. simpl. apply Math_max_Permutation. by apply fmap_Permutation.
Qed.

(** * The cards *)

Lemma or_else_nonempty x fallback : fallback ≠ "" -> or_else x fallback ≠ "".
Proof. intros Hf. destruct x as [h|]; simpl; [|done]. by destruct (decide (h = "")). Qed.

Lemma when_truthy_or_null x : when_truthy (or_null x) = or_null x.
Proof.
  destruct x as [h|]; simpl; [|done].
  destruct (decide (h = "")) as [->|Hne]; simpl; [done|].
  by destruct (decide (h = "")).
Qed.

Lemma imap_commit_lines (f : nat -> nat) (l : list Commit.t) :
  map line_message (imap (fun i => commit_line (f i)) (map commit_view l))
    = map Commit.message l /\
  map line_key (imap (fun i => commit_line (f i)) (map commit_view l))
    = map f (seq 0 (length l)).
Proof.
  revert f. induction l as [|c l IH]; intros f; simpl; [done|].
  destruct (IH (f ∘ S)) as [IH1 IH2]. split; f_equal; [exact IH1|].
  change (map line_key (imap (fun i => commit_line ((f ∘ S) i)) (map commit_view l))
          = map f (seq 1 (length l))).
  by rewrite IH2, <- seq_shift, map_map.
Qed.

(** What the card of a record built by the cycle shows. *)
Lemma card_of_activity k p userData r cs :
  card_repo (card k (activity p userData r cs)) = Repo.name r /\
  (forall h, card_production (card k (activity p userData r cs)) = Some h <->
             Repo.homepage r = Some h /\ h ≠ "") /\
  (card_tech (card k (activity p userData r cs)) = "Unknown" \/
   Repo.language r = Some (card_tech (card k (activity p userData r cs)))) /\
  map line_message (card_commits (card k (activity p userData r cs)))
    = map Commit.message cs /\
  map line_key (card_commits (card k (activity p userData r cs)))
    = seq 0 (length cs).
Proof.
  unfold card, activity.
  cbn [card_repo card_production card_tech card_commits Activity.repo
       Activity.productionUrl Activity.techStack Activity.commits].
  split; [done|]. split; [|split].
  - intros h. rewrite when_truthy_or_null. split.
    + destruct (Repo.homepage r) as [h'|]; simpl; [|done].
      destruct (decide (h' = "")); [done|]. by intros [= <-].
    + intros [H1 H2]. rewrite H1. simpl. by destruct (decide (h = "")).
  - destruct (Repo.language r) as [l|]; simpl; [|by left].
    destruct (decide (l = "")); [by left|by right].
  - destruct (imap_commit_lines id cs) as [H1 H2]. split; [exact H1|].
    etransitivity; [exact H2|apply map_id].
Qed.

(** After a cycle that passes the gate there is one card per published
    record, in the same order and keyed by position. The card of the
    record of repository [r] shows a production link exactly when the
    homepage of [r] is a non-empty string, and then that string; its
    technology label is never empty: the language of [r], or "Unknown"
    when there is none; and it lists the commits of the response in
    their order, keyed by position. *)
Theorem cards_follow_published_records remote st k a :
  gate_open remote st = true ->
  activities (fst (fetchData remote st)) !! k = Some a ->
  cards (fst (fetchData remote st)) !! k = Some (card k a) /\
  length (cards (fst (fetchData remote st))) =
    length (activities (fst (fetchData remote st))) /\
  card_tech (card k a) ≠ "" /\
  exists rresp rs r resp cs,
    fetch_repos remote (Activity.profile a) = Normal rresp /\
    json rresp = Normal (Doc rs) /\ r ∈ rs /\
    fetch_commits remote (Activity.profile a) (Repo.name r) = Normal resp /\
    json resp = Normal (Doc cs) /\
    card_repo (card k a) = Repo.name r /\
    (forall h, card_production (card k a) = Some h <->
               Repo.homepage r = Some h /\ h ≠ "") /\
    (card_tech (card k a) = "Unknown" \/
     Repo.language r = Some (card_tech (card k a))) /\
    map line_message (card_commits (card k a)) = map Commit.message cs /\
    map line_key (card_commits (card k a)) = seq 0 (length cs).
Proof.
  intros Hopen Hk.
  split; [unfold cards; by rewrite list_lookup_imap, Hk|].
  split; [unfold cards; by rewrite length_imap|].
  split; [by apply or_else_nonempty|].
  assert (Ha : a ∈ activities (fst (fetchData remote st)))
    by (by eapply list_elem_of_lookup_2).
  destruct (open_activity_built _ _ _ Hopen Ha) as [_ Hb].
  remember (Activity.profile a) as p eqn:Hp.
  destruct Hb as [uresp userData rresp rs r resp cs Hu Hok Hud Hr Hrs Hin Hc Hj Hne].
  exists rresp, rs, r, resp, cs.
  split; [done|]. split; [done|]. split; [done|]. split; [done|]. split; [done|].
  apply card_of_activity.
Qed.

(** * More on scheduling *)

(** After any history of the component at most one timer is armed, and
    an armed timer belongs to the mounted component: its delay is 100
    seconds, the pending cleanup clears it, and its callback runs over
    the profiles and the token of the last effect run, of which the
    profiles are not empty. *)
Theorem one_timer_over_current_state (es : list Event) :
  (size (timers (runtime (run es boot))) <= 1)%nat /\
  forall id t,
    timers (runtime (run es boot)) !! id = Some t ->
    mounted (run es boot) = true /\ cleanup (run es boot) = Some id /\
    delay t = 100000%Z /\
    exists ps tok,
      deps (run es boot) = Some (ps, tok) /\ ps ≠ [] /\
      callback t = {| closed_profiles := ps; closed_headers := headers tok |}.
Proof.
  pose proof (scheduled_run es boot scheduled_boot) as Hi.
  set (i := run es boot) in *. unfold scheduled in Hi.
  destruct (cleanup i) as [interval|].
  - destruct Hi as (t & ps & tok & Ht & Hd & Hm & Hdeps & Hps & Hcb).
    rewrite Ht. split; [rewrite map_size_singleton; lia|].
    intros id t' Hid. apply lookup_singleton_Some in Hid as [<- <-].
    repeat split; try done. by exists ps, tok.
  - destruct Hi as [Ht _]. rewrite Ht. split; [rewrite map_size_empty; lia|].
    intros id t Hid. by rewrite lookup_empty in Hid.
Qed.

Lemma run_cleanup_started i : started (run_cleanup i) = started (runtime i).
Proof. by destruct (run_cleanup_rest i) as (_ & _ & ?). Qed.

Lemma step_started_nonempty i e :
  scheduled i ->
  Forall (fun tc => closed_profiles (snd tc) ≠ []) (started (runtime i)) ->
  Forall (fun tc => closed_profiles (snd tc) ≠ []) (started (runtime (step i e))).
Proof.
  intros Hi Hall. destruct e as [ps tok| |ms|id]; simpl.
  - destruct (mounted i); simpl; [|done].
    destruct (decide (deps i = Some (ps, tok))); [done|].
    unfold effect. destruct ps as [|p ps]; simpl.
    + by rewrite run_cleanup_started.
    + rewrite run_cleanup_started. apply Forall_app. split; [done|].
      by repeat constructor.
  - by rewrite run_cleanup_started.
  - done.
  - unfold fire. destruct (timers (runtime i) !! id) as [t|] eqn:Hid; [|done].
    destruct (due t <=? clock (runtime i))%Z; [|done]. simpl.
    apply Forall_app. split; [done|]. constructor; [|constructor]. simpl.
    unfold scheduled in Hi. destruct (cleanup i) as [interval|].
    + destruct Hi as (t' & ps & tok & Ht & _ & _ & _ & Hps & Hcb).
      rewrite Ht in Hid. apply lookup_singleton_Some in Hid as [_ <-].
      by rewrite Hcb.
    + destruct Hi as [Ht _]. by rewrite Ht, lookup_empty in Hid.
Qed.

(** No cycle ever starts over an empty list of profiles, neither at
    once from the effect nor later from a timer. *)
Theorem never_polls_empty_list (es : list Event) :
  Forall (fun tc => closed_profiles (snd tc) ≠ []) (started (runtime (run es boot))).
Proof.
  assert (Hgen : forall es i, scheduled i ->
            Forall (fun tc => closed_profiles (snd tc) ≠ []) (started (runtime i)) ->
            Forall (fun tc => closed_profiles (snd tc) ≠ [])
                   (started (runtime (run es i)))).
  { clear es. induction es as [|e es IH]; intros i Hi Hall; [done|].
    apply IH; [by apply scheduled_step|by apply step_started_nonempty]. }
  apply Hgen; [apply scheduled_boot|constructor].
Qed.

(** Which actions restart the polling. With the effect in step with the
    state: typing into the account field, a cycle publishing its
    results and a submission that adds nothing leave the timer and the
    started cycles alone; a submission that adds an account, and a
    change of the token while accounts are tracked, start one cycle at
    once, over the new list or with the new header. A change of the
    token while nothing is tracked starts none. *)
Theorem actions_that_restart_polling i st :
  mounted i = true ->
  deps i = Some (profiles st, token st) ->
  (forall s, commit (setNewProfiles s st) i = i) /\
  (forall remote, commit (fst (fetchData remote st)) i = i) /\
  (profiles (handleAddProfiles st) = profiles st ->
     commit (handleAddProfiles st) i = i) /\
  (profiles (handleAddProfiles st) ≠ profiles st ->
     started (runtime (commit (handleAddProfiles st) i)) =
       started (runtime i)
         ++ [(clock (runtime i),
              {| closed_profiles := profiles (handleAddProfiles st);
                 closed_headers := headers (token st) |})]) /\
  (forall tok, tok ≠ token st -> profiles st ≠ [] ->
     started (runtime (commit (setToken tok st) i)) =
       started (runtime i)
         ++ [(clock (runtime i),
              {| closed_profiles := profiles st; closed_headers := headers tok |})]) /\
  (forall tok, profiles st = [] ->
     started (runtime (commit (setToken tok st) i)) = started (runtime i)).
Proof.
  intros Hm Hdeps.
  assert (Hsame : forall st', profiles st' = profiles st -> token st' = token st ->
            commit st' i = i).
  { intros st' Hp Ht. unfold commit. simpl. rewrite Hm, Hp, Ht. simpl.
    by destruct (decide (deps i = Some (profiles st, token st))). }
  assert (Hrun : forall ps tok, deps i ≠ Some (ps, tok) -> ps ≠ [] ->
            started (runtime (step i (Render ps tok))) =
            started (runtime i)
              ++ [(clock (runtime i),
                   {| closed_profiles := ps; closed_headers := headers tok |})]).
  { intros ps tok Hne Hps. simpl. rewrite Hm. simpl.
    destruct (decide (deps i = Some (ps, tok))); [done|].
    unfold effect. rewrite (length_positive ps Hps). simpl.
    by destruct (run_cleanup_rest i) as (-> & _ & ->). }
  assert (Htok : token (handleAddProfiles st) = token st).
  { unfold handleAddProfiles. by destruct (0 <? length _)%nat. }
  split; [by intros s; apply Hsame|].
  split; [intros remote; apply Hsame; [apply fetchData_profiles|]|].
  { unfold fetchData, check_rate_limit.
    destruct (fetch_rate_limit remote) as [resp|m]; [|done].
    destruct (json resp) as [[[[core|]]|]|m]; try done; cbn [Resources.core].
    by destruct (Core.remaining core =? 0)%Z. }
  split; [by intros Hp; apply Hsame|].
  split; [|split].
  - intros Hne. unfold commit. rewrite Htok. apply Hrun.
    + rewrite Hdeps. intros [= H]. by rewrite H in Hne.
    + rewrite handleAddProfiles_profiles in *.
      destruct (List.filter _ _); [by rewrite app_nil_r in Hne|].
      by destruct (profiles st).
  - intros tok Hne Hps. unfold commit. simpl profiles. simpl token.
    apply Hrun; [|done]. rewrite Hdeps. by intros [= H].
  - intros tok Hps. unfold commit. simpl. rewrite Hm, Hps. simpl.
    destruct (decide (deps i = Some ([], tok))); [done|].
    simpl. apply run_cleanup_started.
Qed.

Lemma clock_monotone es i : (clock (runtime i) <= clock (runtime (run es i)))%Z.
Proof.
  revert i. induction es as [|e es IH]; intros i; [simpl; lia|].
  change (run (e :: es) i) with (run es (step i e)).
  specialize (IH (step i e)).
  assert (clock (runtime i) <= clock (runtime (step i e)))%Z; [|lia].
  destruct e as [ps tok| |ms|id]; simpl.
  - destruct (mounted i); simpl; [|lia].
    destruct (decide (deps i = Some (ps, tok))); [lia|].
    unfold effect. destruct (0 <? length ps)%nat; simpl;
      destruct (run_cleanup_rest i) as (-> & _); lia.
  - destruct (run_cleanup_rest i) as (-> & _); lia.
  - lia.
  - unfold fire. destruct (timers (runtime i) !! id) as [t|]; [|lia].
    destruct (due t <=? clock (runtime i))%Z; simpl; lia.
Qed.

(** With one timer armed and the clock short of its due time, time
    passing starts no cycle. *)
Lemma passive_before_due es i id t :
  timers (runtime i) = {[ id := t ]} ->
  Forall passive es ->
  (clock (runtime (run es i)) < due t)%Z ->
  started (runtime (run es i)) = started (runtime i).
Proof.
  revert i. induction es as [|e es IH]; intros i Ht Hall Hclock; [done|].
  apply Forall_cons in Hall as [He Hes].
  pose proof (clock_monotone (e :: es) i) as Hmono.
  change (run (e :: es) i) with (run es (step i e)) in *.
  destruct e as [ps tok| |ms|id']; try done.
  - rewrite IH; done.
  - assert (Hfire : fire id' (runtime i) = runtime i).
    { unfold fire. rewrite Ht. destruct (decide (id' = id)) as [->|Hne].
      - rewrite lookup_singleton_eq.
        destruct (due t <=? clock (runtime i))%Z eqn:Hdue; [|done].
        apply Z.leb_le in Hdue. lia.
      - by rewrite lookup_singleton_ne. }
    rewrite IH; try done; simpl; by rewrite Hfire.
Qed.

(** After the effect has run at time [t0], the first repeat does not
    come before [t0] plus 100 seconds: until then, however the time
    passes and whichever timers are tried, the cycle started at once
    stays the last one. *)
Theorem first_repeat_not_before_100s (es es' : list Event) ps tok :
  ps ≠ [] ->
  mounted (run es boot) = true ->
  deps (run es boot) ≠ Some (ps, tok) ->
  Forall passive es' ->
  (clock (runtime (run es' (step (run es boot) (Render ps tok))))
     < clock (runtime (run es boot)) + 100 * 1000)%Z ->
  started (runtime (run es' (step (run es boot) (Render ps tok)))) =
    started (runtime (run es boot))
      ++ [(clock (runtime (run es boot)),
           {| closed_profiles := ps; closed_headers := headers tok |})].
Proof.
  intros Hps Hm Hdeps Hes' Hclock.
  pose proof (scheduled_run es boot scheduled_boot) as Hi.
  set (i := run es boot) in *.
  assert (Hstep : timers (runtime (step i (Render ps tok))) =
            {[ next_id (runtime i) :=
                 {| callback := {| closed_profiles := ps; closed_headers := headers tok |};
                    delay := 100000; due := clock (runtime i) + 100000 |} ]} /\
          started (runtime (step i (Render ps tok))) =
            started (runtime i)
              ++ [(clock (runtime i),
                   {| closed_profiles := ps; closed_headers := headers tok |})]).
  { simpl. rewrite Hm. simpl.
    destruct (decide (deps i = Some (ps, tok))); [done|].
    unfold effect. rewrite (length_positive ps Hps). simpl.
    destruct (run_cleanup_rest i) as (-> & -> & ->).
    by rewrite (run_cleanup_timers i Hi). }
  destruct Hstep as [Ht Hs].
  rewrite (passive_before_due es' _ _ _ Ht Hes'); [done|]. cbn [due]. lia.
Qed.

End Watcher.

(** * The theorems at work

    The theorems above hold for every engine. What follows runs them,
    and the cases in which a statement of the specification fails, on
    the concrete services, with the wording of V8. *)

#[export] Existing Instance v8.

Lemma quota_exhausted_keeps_activities_witness :
  fetchData (service 0 (resolved (Doc []))) (tracking ["alice"; "bob"]) =
  ({| profiles := ["alice"; "bob"]; newProfiles := "";
      activities := [old_activity];
      errors := {[ "global" := quota_message ]};
      token := ""; rateLimit := Some (core_with 0) |},
   [GetRateLimit]).
Proof.
  apply (quota_exhausted_keeps_activities
           (service 0 (resolved (Doc []))) (tracking ["alice"; "bob"])
           {| ok := true;
              json := Normal (Doc {| Resources.core := Some (core_with 0) |}) |}
           (core_with 0));
    reflexivity.
Defined.

(** C3, as stated, fails: the rate-limit request is answered with a
    non-success status and a readable body, and the cycle goes on to the
    accounts: it asks for [bob] and records his entry, and no global
    error. *)
Lemma rate_limit_non_success_counterexample :
  fetch_rate_limit service_limit_refused =
    Normal {| ok := false;
              json := Normal (Doc {| Resources.core := Some (core_with 5) |}) |} /\
  snd (fetchData service_limit_refused (tracking ["bob"; "alice"])) =
    [GetRateLimit; GetUser "bob"; GetUser "alice"; GetRepos "alice";
     GetCommits "alice" "x"; GetCommits "alice" "y"] /\
  errors (fst (fetchData service_limit_refused (tracking ["bob"; "alice"]))) =
    {[ "bob" := "User bob not found" ]} /\
  map Activity.repo
      (activities (fst (fetchData service_limit_refused (tracking ["bob"; "alice"])))) =
    ["x"; "y"].
Proof. repeat split; reflexivity. Qed.

Lemma rate_limit_failure_aborts_cycle_witness :
  fetchData (service_down (Throw "Failed to fetch")) (tracking ["alice"]) =
  (setErrors {[ "global" := "Error checking rate limit: Failed to fetch" ]}
             (tracking ["alice"]),
   [GetRateLimit]).
Proof.
  apply (proj1 (rate_limit_failure_aborts_cycle
                  (service_down (Throw "Failed to fetch")) (tracking ["alice"]))).
  apply rejected. reflexivity.
Defined.

Lemma record_repoCount_lastUpdated_witness :
  exists a m,
    a ∈ activities (fst (fetchData service_y_rejected (tracking ["bob"; "alice"]))) /\
    Activity.profile a = "alice" /\ Activity.repo a = "x" /\
    Activity.repoCount a = 7%Z /\
    Activity.lastUpdated a = Some m /\
    m ∈ [1727517600000%Z; 1727604000000%Z] /\
    forall d, d ∈ [1727517600000%Z; 1727604000000%Z] -> (d <= m)%Z.
Proof.
  destruct (record_repoCount_lastUpdated service_y_rejected
              (tracking ["bob"; "alice"]) eq_refl) as [_ Hhas].
  apply (Hhas "alice"
           {| ok := true; json := Normal {| User.public_repos := 7 |} |}
           {| User.public_repos := 7 |}
           {| ok := true; json := Normal (Doc [repo_x; repo_y]) |}
           [] repo_x [repo_y]
           {| ok := true;
              json := Normal (Doc [commit_at 1727517600000 "first";
                                   commit_at 1727604000000 "second"]) |}
           [commit_at 1727517600000 "first"; commit_at 1727604000000 "second"]);
    try reflexivity.
  - right. left.
  - intros r' Hr'. by apply elem_of_nil in Hr'.
  - discriminate.
Defined.

Lemma failed_lookup_is_isolated_witness :
  (errors (fst (fetchData (service 5 (resolved (Doc [])))
                           (tracking ["alice"; "bob"])))) !! "bob"
    = Some "User bob not found" /\
  (forall a, a ∈ activities (fst (fetchData (service 5 (resolved (Doc [])))
                                   (tracking ["alice"; "bob"]))) ->
             Activity.profile a ≠ "bob").
Proof.
  pose proof (failed_lookup_is_isolated (service 5 (resolved (Doc [])))
                (tracking ["alice"; "bob"]) "bob" "User bob not found") as H.
  destruct H as (He & Ha & _).
  - reflexivity.
  - right. left.
  - apply (lookup_not_ok _ "bob" {| ok := false; json := Throw "Unexpected token" |});
      reflexivity.
  - split; [exact He|exact Ha].
Defined.

Lemma no_commits_no_record_witness :
  let st' := fst (fetchData (service 5 (resolved (Doc [])))
                    (tracking ["alice"; "carol"; "dave"])) in
  (errors st' !! "dave" = None /\
   forall a, a ∈ activities st' -> Activity.profile a ≠ "dave") /\
  (errors st' !! "carol" = Some "No public repositories found for carol" /\
   forall a, a ∈ activities st' -> Activity.profile a ≠ "carol").
Proof.
  destruct (no_commits_no_record (service 5 (resolved (Doc [])))
              (tracking ["alice"; "carol"; "dave"])) as (_ & Hsome & Hnone);
    [reflexivity|].
  split.
  - apply (Hsome "dave" {| ok := true; json := Normal {| User.public_repos := 1 |} |}
             {| User.public_repos := 1 |}
             {| ok := true; json := Normal (Doc [repo_y]) |} [repo_y]);
      try reflexivity.
    + right. right. left.
    + discriminate.
    + intros r Hr. apply list_elem_of_singleton in Hr. subst r.
      exists {| ok := true; json := Normal (Doc []) |}. split; reflexivity.
  - apply (Hnone "carol" {| ok := true; json := Normal {| User.public_repos := 0 |} |}
             {| User.public_repos := 0 |}
             {| ok := true; json := Normal (Doc []) |});
      try reflexivity.
    right. left.
Defined.

Lemma commit_failure_keeps_earlier_records_witness :
  (errors (fst (fetchData service_y_rejected (tracking ["alice"; "bob"])))) !! "alice"
    = Some "Failed to fetch" /\
  activities (fst (fetchData service_y_rejected (tracking ["alice"; "bob"]))) =
    [activity "alice" {| User.public_repos := 7 |} repo_x
       [commit_at 1727517600000 "first"; commit_at 1727604000000 "second"]] /\
  snd (fetchData service_y_rejected (tracking ["alice"; "bob"])) =
    [GetRateLimit; GetUser "alice"; GetRepos "alice";
     GetCommits "alice" "x"; GetCommits "alice" "y"; GetUser "bob"].
Proof.
  apply (commit_failure_keeps_earlier_records service_y_rejected
           (tracking ["alice"; "bob"]) [] "alice" ["bob"]
           {| ok := true; json := Normal {| User.public_repos := 7 |} |}
           {| User.public_repos := 7 |}
           {| ok := true; json := Normal (Doc [repo_x; repo_y]) |}
           [repo_x] repo_y [] "Failed to fetch"); try reflexivity.
  - intros r' Hr'. apply list_elem_of_singleton in Hr'. subst r'.
    eexists. eexists. split; reflexivity.
  - left. reflexivity.
Defined.

(** C1, as stated, fails: the commits request of [alice]'s second
    repository is rejected, and the cycle still publishes the record of
    her first repository, next to her error entry. *)
Lemma commit_failure_discards_counterexample :
  commits_throw service_y_rejected "alice" repo_y "Failed to fetch" /\
  (errors (fst (fetchData service_y_rejected (tracking ["alice"])))) !! "alice"
    = Some "Failed to fetch" /\
  ~ (forall a,
       a ∈ activities (fst (fetchData service_y_rejected (tracking ["alice"]))) ->
       Activity.profile a ≠ "alice").
Proof.
  split; [by left|]. split; [reflexivity|].
  intros H.
  apply (H (activity "alice" {| User.public_repos := 7 |} repo_x
              [commit_at 1727517600000 "first"; commit_at 1727604000000 "second"]));
    [|reflexivity].
  vm_compute. left.
Qed.

Lemma records_in_discovery_order_witness :
  map (fun a => (Activity.profile a, Activity.repo a))
      (activities (fst (fetchData service_y_active (tracking ["dave"; "bob"; "alice"])))) =
  [("dave", "y"); ("alice", "x"); ("alice", "y")].
Proof.
  rewrite (proj1 (records_in_discovery_order service_y_active
                    (tracking ["dave"; "bob"; "alice"]) eq_refl)).
  reflexivity.
Defined.

Lemma commit_error_document_is_skipped_witness :
  (errors (fst (fetchData (service 5 (Normal {| ok := false; json := Normal ErrorDoc |}))
                   (tracking ["alice"])))) !! "alice" = None /\
  snd (fetchData (service 5 (Normal {| ok := false; json := Normal ErrorDoc |}))
         (tracking ["alice"])) =
  [GetRateLimit; GetUser "alice"; GetRepos "alice";
   GetCommits "alice" "x"; GetCommits "alice" "y"].
Proof.
  split; [|reflexivity].
  apply (commit_error_document_is_skipped
           (service 5 (Normal {| ok := false; json := Normal ErrorDoc |}))
           (tracking ["alice"]) "alice"
           {| ok := true; json := Normal {| User.public_repos := 7 |} |}
           {| User.public_repos := 7 |}
           {| ok := true; json := Normal (Doc [repo_x; repo_y]) |}
           [repo_x; repo_y]); try reflexivity.
  - left.
  - discriminate.
  - intros r Hr. apply elem_of_cons in Hr as [->|Hr].
    + eexists. eexists. split; reflexivity.
    + apply list_elem_of_singleton in Hr as ->.
      eexists. eexists. split; reflexivity.
Defined.

Lemma add_tracked_account_is_noop_witness :
  profiles (handleAddProfiles (form [] " alice, bob ")) = ["alice"; "bob"] /\
  handleAddProfiles (setNewProfiles "bob" (handleAddProfiles (form [] " alice, bob "))) =
  setNewProfiles "bob" (handleAddProfiles (form [] " alice, bob ")).
Proof.
  split; [reflexivity|].
  apply (add_tracked_account_is_noop (handleAddProfiles (form [] " alice, bob ")) "bob").
  - apply reach_submit, reach_mount. reflexivity.
  - right. left.
Defined.

Lemma distinct_submission_keeps_NoDup_witness :
  NoDup (profiles (handleAddProfiles (form ["alice"] "bob, alice ,carol"))).
Proof.
  apply (distinct_submission_keeps_NoDup (form ["alice"] "bob, alice ,carol")).
  - apply NoDup_singleton.
  - vm_compute. apply NoDup_cons. split; [|apply NoDup_cons; split;
      [|apply NoDup_singleton]].
    + intros H. apply elem_of_cons in H as [H|H]; [discriminate|].
      apply elem_of_cons in H as [H|H]; [discriminate|]. by apply elem_of_nil in H.
    + intros H. apply elem_of_cons in H as [H|H]; [discriminate|].
      by apply elem_of_nil in H.
Defined.

Lemma effect_starts_and_stops_polling_witness :
  started (runtime (step (run [] boot) (Render ["alice"] "t0"))) =
    [(0%Z, {| closed_profiles := ["alice"]; closed_headers := Some "token t0" |})] /\
  started (runtime (run [Elapse 250000; Fire 0; Fire 1]
                        (step (run [Render ["alice"] ""] boot) Unmount))) =
    started (runtime (step (run [Render ["alice"] ""] boot) Unmount)).
Proof.
  split.
  - apply (proj1 (effect_starts_and_stops_polling []) ["alice"] "t0");
      [discriminate|reflexivity|discriminate].
  - apply (proj2 (proj2 (effect_starts_and_stops_polling [Render ["alice"] ""])) Unmount).
    + left. reflexivity.
    + repeat constructor.
Defined.

Lemma blank_submission_is_ignored_witness :
  handleAddProfiles (form ["alice"] " , ,, ") = form ["alice"] " , ,, ".
Proof.
  apply (blank_submission_is_ignored (form ["alice"] " , ,, ")).
  simpl. repeat split; (by left) || (by right).
Defined.

Lemma tracked_names_are_clean_witness :
  Forall clean (profiles (handleAddProfiles (form [] "  alice ,, bob"))).
Proof.
  apply (tracked_names_are_clean (handleAddProfiles (form [] "  alice ,, bob"))).
  apply reach_submit, reach_mount. reflexivity.
Defined.

Lemma cycle_is_compositional_witness :
  activities (fst (fetchData service_y_active (tracking ["dave"; "alice"]))) =
  activities (fst (cycle_over service_y_active ["dave"] (tracking ["dave"; "alice"])))
    ++ activities (fst (cycle_over service_y_active ["alice"] (tracking ["dave"; "alice"]))).
Proof.
  apply (cycle_is_compositional service_y_active (tracking ["dave"; "alice"])
           ["dave"] ["alice"]); reflexivity.
Defined.

Lemma cycle_request_budget_witness :
  (length (snd (fetchData service_y_active (tracking ["dave"; "bob"; "alice"])))
   <= 1 + 3 * (2 + 2))%nat.
Proof.
  apply (cycle_request_budget service_y_active
           (tracking ["dave"; "bob"; "alice"]) 2).
  intros p rresp rs. simpl.
  destruct (decide (p = "alice")); [|destruct (decide (p = "dave"))];
    intros Hr; injection Hr as <-; simpl; intros Hrs; injection Hrs as <-;
    simpl; lia.
Defined.

Lemma no_error_means_full_coverage_witness :
  exists uresp userData rresp rs,
    fetch_user service_y_active "alice" = Normal uresp /\ ok uresp = true /\
    json uresp = Normal userData /\
    fetch_repos service_y_active "alice" = Normal rresp /\
    json rresp = Normal (Doc rs) /\ rs ≠ [] /\
    (forall r, r ∈ rs -> exists payload, commits_settle service_y_active "alice" r payload) /\
    (forall r, r ∈ rs ->
       commits_request "alice" r ∈ snd (fetchData service_y_active (tracking ["bob"; "alice"]))).
Proof.
  apply (no_error_means_full_coverage service_y_active (tracking ["bob"; "alice"]) "alice").
  - reflexivity.
  - right. left.
  - discriminate.
  - reflexivity.
Defined.

Lemma snapshot_replaced_wholesale_witness :
  activities (fst (fetchData service_y_active (form ["alice"; "bob"] "typed"))) =
  activities (fst (fetchData service_y_active (tracking ["alice"; "bob"]))) /\
  errors (fst (fetchData service_y_active (form ["alice"; "bob"] "typed"))) =
  errors (fst (fetchData service_y_active (tracking ["alice"; "bob"]))).
Proof.
  destruct (snapshot_replaced_wholesale service_y_active
              (tracking ["alice"; "bob"]) (form ["alice"; "bob"] "typed"))
    as (Ha & He & _); [reflexivity|reflexivity|]. by split.
Defined.

Lemma repos_error_document_fails_account_witness :
  (errors (fst (fetchData service_listing_refused (tracking ["alice"])))) !! "alice"
    = Some not_iterable /\
  snd (fetchData service_listing_refused (tracking ["alice"])) =
    [GetRateLimit; GetUser "alice"; GetRepos "alice"].
Proof.
  split; [|reflexivity].
  apply (repos_error_document_fails_account service_listing_refused
           (tracking ["alice"]) "alice"
           {| ok := true; json := Normal {| User.public_repos := 3 |} |}
           {| User.public_repos := 3 |}
           {| ok := false; json := Normal ErrorDoc |}); try reflexivity.
  left.
Defined.

Lemma lastUpdated_order_independent_witness :
  Activity.lastUpdated
    (activity "alice" {| User.public_repos := 7 |} repo_x
       [commit_at 30 "c"; commit_at 10 "a"; commit_at 20 "b"]) =
  Activity.lastUpdated
    (activity "alice" {| User.public_repos := 7 |} repo_x
       [commit_at 10 "a"; commit_at 20 "b"; commit_at 30 "c"]).
Proof.
  apply (lastUpdated_order_independent "alice" {| User.public_repos := 7 |} repo_x
           [commit_at 30 "c"; commit_at 10 "a"; commit_at 20 "b"]
           [commit_at 10 "a"; commit_at 20 "b"; commit_at 30 "c"]).
  change [commit_at 30 "c"; commit_at 10 "a"; commit_at 20 "b"]
    with ([commit_at 30 "c"] ++ [commit_at 10 "a"; commit_at 20 "b"]).
  change [commit_at 10 "a"; commit_at 20 "b"; commit_at 30 "c"]
    with ([commit_at 10 "a"; commit_at 20 "b"] ++ [commit_at 30 "c"]).
  apply Permutation_app_comm.
Defined.

Lemma cards_follow_published_records_witness :
  cards (fst (fetchData two_accounts (form ["bob"; "alice"] ""))) !! 0%nat =
  Some {| card_key := 0; card_profile := "alice"; card_repo := "x";
          card_repo_href := "https://github.com/alice/x";
          card_production := None; card_tech := "Go";
          card_commits :=
            [{| line_key := 0; line_message := "first";
                line_date := 1727517600000;
                line_href := "https://github.com/alice/x/commit/1" |}] |}.
Proof.
  apply (cards_follow_published_records two_accounts (form ["bob"; "alice"] "") 0
           (activity "alice" {| User.public_repos := 2 |} repo_x
              [commit_at 1727517600000 "first"])); reflexivity.
Defined.

Lemma actions_that_restart_polling_witness :
  map fst (started (runtime (commit (handleAddProfiles (form ["alice"] "bob"))
                                    (run [Render ["alice"] ""; Elapse 4000] boot)))) =
  [0%Z; 4000%Z].
Proof.
  destruct (actions_that_restart_polling
              (run [Render ["alice"] ""; Elapse 4000] boot) (form ["alice"] "bob"))
    as (_ & _ & _ & Hadd & _); [reflexivity|reflexivity|].
  rewrite Hadd; [reflexivity|discriminate].
Defined.

Lemma first_repeat_not_before_100s_witness :
  started (runtime (run [Elapse 60000; Fire 0; Elapse 39999; Fire 0]
                        (step (run [] boot) (Render ["alice"] "")))) =
  [(0%Z, {| closed_profiles := ["alice"]; closed_headers := None |})].
Proof.
  apply (first_repeat_not_before_100s [] [Elapse 60000; Fire 0; Elapse 39999; Fire 0]
           ["alice"] "").
  - discriminate.
  - reflexivity.
  - discriminate.
  - repeat constructor.
  - vm_compute. reflexivity.
Defined.
